(** * DeepSeek-Coder HumanEval harness: Evaluation/HumanEval/eval_instruct_vllm.py

    A shallow embedding of the evaluation script and the properties of its
    prompt builder, its JSONL loader and writer, and its two flows
    ([generate_main], [evaluation_only]) together with the command-line
    entry point.

    Conventions.
    - A Python [str] is a [string]; each [ascii] is one code point below 256.
      [isspace] and [lower] are Python's on that range.
    - The script is sequential code with exceptions and side effects: it is
      embedded in a state-and-exception monad over a [World] (files,
      directories, environment, seed, and the chronological trace of the
      calls that leave the script).
    - What the script imports (os.path resolution, json, transformers, vllm,
      human_eval, utils.utils) is not part of the file: it is the interface
      [Libs], of which the script is a client. *)

From Stdlib Require Import Ascii String ZArith QArith.
From stdpp Require Import gmap strings list fin_maps pretty.

Set Warnings "-register-all".

(** ** Python [str] methods used by the script *)

Module Str.

Definition LF : ascii := "010"%char.
Definition CR : ascii := "013"%char.
Definition backtick : ascii := "`"%char.

(** [str.isspace] on one code point below 256: TAB, LF, VT, FF, CR,
    FS, GS, RS, US, SPACE, NEL (0x85) and NBSP (0xa0). *)
Definition isspace (c : ascii) : bool :=
  let n := N_of_ascii c in
  ((9 <=? n) && (n <=? 13) || (28 <=? n) && (n <=? 32)
   || (n =? 133) || (n =? 160))%N.

Fixpoint lstrip (s : string) : string :=
  match s with
  | EmptyString => EmptyString
  | String c s' => if isspace c then lstrip s' else s
  end.

Fixpoint rstrip (s : string) : string :=
  match s with
  | EmptyString => EmptyString
  | String c s' =>
      match rstrip s' with
      | EmptyString => if isspace c then EmptyString else String c EmptyString
      | r => String c r
      end
  end.

(** [s.strip()] *)
Definition strip (s : string) : string := rstrip (lstrip s).

(** [str.lower] on one code point below 256: A-Z, and the Latin-1 capitals
    0xC0-0xDE except the multiplication sign 0xD7, move up by 32. *)
Definition lower_char (c : ascii) : ascii :=
  let n := N_of_ascii c in
  if ((65 <=? n) && (n <=? 90)
      || (192 <=? n) && (n <=? 222) && negb (n =? 215))%N
  then ascii_of_N (n + 32) else c.

Fixpoint lower (s : string) : string :=
  match s with
  | EmptyString => EmptyString
  | String c s' => String (lower_char c) (lower s')
  end.

(** [t.format( *args )] for templates whose replacement fields are the
    auto-numbered [{}]; [{{] and [}}] are the escaped braces.  [None] is
    the exception Python raises (too few arguments, a lone brace); named
    and indexed fields do not occur in this program and are refused. *)
Fixpoint format (t : string) (args : list string) : option string :=
  match t with
  | EmptyString => Some EmptyString
  | String c t1 =>
      if Ascii.eqb c "{" then
        match t1 with
        | String d t2 =>
            if Ascii.eqb d "}" then
              match args with
              | a :: args' => (fun r => a +:+ r) <$> format t2 args'
              | [] => None
              end
            else if Ascii.eqb d "{" then String "{" <$> format t2 args
            else None
        | EmptyString => None
        end
      else if Ascii.eqb c "}" then
        match t1 with
        | String d t2 =>
            if Ascii.eqb d "}" then String "}" <$> format t2 args else None
        | EmptyString => None
        end
      else String c <$> format t1 args
  end.

(** [sub in s] *)
Fixpoint is_infix (sub s : string) : bool :=
  String.prefix sub s ||
  match s with
  | EmptyString => false
  | String _ s' => is_infix sub s'
  end.

(** Number of positions of [s] at which a code fence (three backticks)
    starts. *)
Fixpoint fences (s : string) : nat :=
  match s with
  | EmptyString => 0
  | String _ s' => (if String.prefix "```" s then 1 else 0) + fences s'
  end.

Fixpoint no_backtick (s : string) : bool :=
  match s with
  | EmptyString => true
  | String c s' => negb (Ascii.eqb c backtick) && no_backtick s'
  end.

End Str.

(** ** [os.path] on POSIX paths *)

Module Path.

Definition sep : ascii := "/"%char.

Fixpoint has_sep (p : string) : bool :=
  match p with
  | EmptyString => false
  | String c p' => Ascii.eqb c sep || has_sep p'
  end.

(** [os.path.basename p]: what follows the last separator. *)
Fixpoint basename (p : string) : string :=
  match p with
  | EmptyString => EmptyString
  | String c p' =>
      if Ascii.eqb c sep then basename p'
      else if has_sep p' then basename p' else p
  end.

Fixpoint endswith_sep (p : string) : bool :=
  match p with
  | EmptyString => false
  | String c EmptyString => Ascii.eqb c sep
  | String _ p' => endswith_sep p'
  end.

Definition startswith_sep (p : string) : bool :=
  match p with
  | String c _ => Ascii.eqb c sep
  | EmptyString => false
  end.

(** [os.path.join a b] *)
Definition join (a b : string) : string :=
  if startswith_sep b then b
  else if String.eqb a "" || endswith_sep a then a +:+ b
  else a +:+ String sep b.

End Path.

(** ** Values, exceptions and results *)

(** What [json.loads] returns.  A [dict] keeps its insertion order, so an
    object is an association list; a Python [float] is carried as its
    IEEE-754 binary64 bit pattern. *)
Inductive json : Type :=
| JNull
| JBool (b : bool)
| JInt (n : Z)
| JFloat (bits : Z)
| JStr (s : string)
| JArr (xs : list json)
| JObj (kvs : list (string * json)).

Inductive exn : Type :=
| AssertionError (msg : string)
| KeyError (key : string)
| TypeError
| AttributeError
| IndexError
| JSONDecodeError
| FileNotFoundError (p : string)
| FileExistsError (p : string)
| IsADirectoryError (p : string)
| PermissionError (p : string)
| LibraryError (what : string).

Inductive Res (A : Type) : Type :=
| Ok (a : A)
| Err (e : exn).
Arguments Ok {A} a.
Arguments Err {A} e.

Definition res_bind {A B} (r : Res A) (k : A -> Res B) : Res B :=
  match r with
  | Ok a => k a
  | Err e => Err e
  end.

Fixpoint res_mapM {A B} (f : A -> Res B) (l : list A) : Res (list B) :=
  match l with
  | [] => Ok []
  | x :: l' =>
      res_bind (f x) (fun y => res_bind (res_mapM f l') (fun ys => Ok (y :: ys)))
  end.

Definition of_option {A} (e : exn) (o : option A) : Res A :=
  match o with
  | Some a => Ok a
  | None => Err e
  end.

(** *** [dict] operations *)

Fixpoint dict_get (k : string) (d : list (string * json)) : option json :=
  match d with
  | [] => None
  | (k', v) :: d' => if String.eqb k' k then Some v else dict_get k d'
  end.

(** [d[k] = v]: an existing key keeps its place, a new key goes last. *)
Fixpoint dict_set (k : string) (v : json) (d : list (string * json))
  : list (string * json) :=
  match d with
  | [] => [(k, v)]
  | (k', v') :: d' =>
      if String.eqb k' k then (k, v) :: d' else (k', v') :: dict_set k v d'
  end.

(** [x[k]] with a [str] key: [KeyError] on a dict without the key,
    [TypeError] on every other JSON value. *)
Definition getitem (x : json) (k : string) : Res json :=
  match x with
  | JObj d => of_option (KeyError k) (dict_get k d)
  | _ => Err TypeError
  end.

(** [x[k] = v] with a [str] key. *)
Definition setitem (x : json) (k : string) (v : json) : Res json :=
  match x with
  | JObj d => Ok (JObj (dict_set k v d))
  | _ => Err TypeError
  end.

(** The receiver of a [str] method: any other JSON value has no such
    attribute. *)
Definition as_str (x : json) : Res string :=
  match x with
  | JStr s => Ok s
  | _ => Err AttributeError
  end.

(** ** The libraries' data *)

Record Message := { role : string; content : string }.

Record Tokenizer := {
  tok_class : string;                      (* str(tokenizer.__class__) *)
  eos_token_id : option Z;
  apply_chat_template : list Message -> bool -> bool -> Res string
    (* messages, tokenize, add_generation_prompt *)
}.

Record LLMConfig := {
  model : string;
  tensor_parallel_size : Z;
  max_model_len : Z;
  trust_remote_code : bool;
  enforce_eager : bool
}.

Record SamplingParams := {
  temperature : Q;
  max_tokens : Z;
  top_p : Q;
  stop_token_ids : list (option Z)
}.

Record CompletionOutput := { text : string }.
Record RequestOutput := { outputs : list CompletionOutput }.

Record LLM := {
  generate : list string -> SamplingParams -> Res (list RequestOutput)
}.

Record EvalArgs := {
  input_file : string;
  tmp_dir : string;
  n_workers : Z;
  timeout : Q;
  eval_problem_file : string;
  eval_language : string
}.

(** [argparse.Namespace] after [parse_args]. *)
Record Args := {
  model_path : string;
  gpus_num : Z;
  output_path : string;
  language : string;
  temp_dir : string;
  seed : Z
}.

(** ** The world and the calls that leave the script *)

Inductive Event : Type :=
| EEnter (fn : string)             (* a function of the script is entered *)
| ESetEnv (k v : string)
| ESetSeed (s : Z)
| EExists (p : string) (b : bool)
| EMakedirs (p : string)
| EOpenRead (p : string)
| EOpenWrite (p : string)
| EWrite (p : string) (data : string)
| EPrint (line : string)
| ETokenizerLoad (name : string)
| EChatTemplate (messages : list Message)
| ELLMInit (cfg : LLMConfig)
| EGenerate (prompts : list string) (sp : SamplingParams)
| EEvaluate (a : EvalArgs).

(** [files], [dirs] and [denied] are keyed by resolved paths: regular files
    with their text, the directories that exist, and the paths the operating
    system refuses to create or open for writing. *)
Record World := {
  files : gmap string string;
  dirs : gset string;
  denied : gset string;
  environ : gmap string string;
  rng_seed : option Z;
  trace : list Event
}.

Definition M (A : Type) : Type := World -> Res A * World.

Definition ret {A} (a : A) : M A := fun w => (Ok a, w).

Definition raise {A} (e : exn) : M A := fun w => (Err e, w).

Definition bind {A B} (m : M A) (k : A -> M B) : M B :=
  fun w =>
    match m w with
    | (Ok a, w1) => k a w1
    | (Err e, w1) => (Err e, w1)
    end.

Definition lift {A} (r : Res A) : M A := fun w => (r, w).

Declare Scope script_scope.
Delimit Scope script_scope with script.
Notation "x <- c1 ;; c2" := (bind c1 (fun x => c2))
  (at level 100, c1 at next level, right associativity) : script_scope.
Notation "c1 ;; c2" := (bind c1 (fun _ => c2))
  (at level 100, right associativity) : script_scope.
Local Open Scope script_scope.

(** [for x in l: f x], collecting the results. *)
Fixpoint forM {A B} (f : A -> M B) (l : list A) : M (list B) :=
  match l with
  | [] => ret []
  | x :: l' => y <- f x ;; ys <- forM f l' ;; ret (y :: ys)
  end.

Fixpoint forM_ {A} (f : A -> M unit) (l : list A) : M unit :=
  match l with
  | [] => ret tt
  | x :: l' => f x ;; forM_ f l'
  end.

Definition log (e : Event) : M unit :=
  fun w =>
    (Ok tt,
     {| files := files w; dirs := dirs w; denied := denied w;
        environ := environ w; rng_seed := rng_seed w;
        trace := trace w ++ [e] |}).

Definition print (line : string) : M unit := log (EPrint line).

Definition enter (fn : string) : M unit := log (EEnter fn).

Definition get : M World := fun w => (Ok w, w).

Definition with_files (f : gmap string string) (w : World) : World :=
  {| files := f; dirs := dirs w; denied := denied w;
     environ := environ w; rng_seed := rng_seed w; trace := trace w |}.

Definition with_dirs (d : gset string) (w : World) : World :=
  {| files := files w; dirs := d; denied := denied w;
     environ := environ w; rng_seed := rng_seed w; trace := trace w |}.

Definition with_environ (e : gmap string string) (w : World) : World :=
  {| files := files w; dirs := dirs w; denied := denied w;
     environ := e; rng_seed := rng_seed w; trace := trace w |}.

Definition with_seed (s : Z) (w : World) : World :=
  {| files := files w; dirs := dirs w; denied := denied w;
     environ := environ w; rng_seed := Some s; trace := trace w |}.

Definition modify (f : World -> World) : M unit := fun w => (Ok tt, f w).

(** ** Text files *)

(** The lines a text file opened with the default [newline=None] is
    iterated by: a line ends after LF, CR LF or CR, and its terminator is
    read as LF; the last line may have none. *)
Fixpoint readlines (text : string) : list string :=
  match text with
  | EmptyString => []
  | String c rest =>
      if Ascii.eqb c Str.LF then String Str.LF EmptyString :: readlines rest
      else if Ascii.eqb c Str.CR then
        match rest with
        | String d rest' =>
            if Ascii.eqb d Str.LF
            then String Str.LF EmptyString :: readlines rest'
            else String Str.LF EmptyString :: readlines rest
        | EmptyString => [String Str.LF EmptyString]
        end
      else
        match readlines rest with
        | [] => [String c EmptyString]
        | l :: ls => String c l :: ls
        end
  end.

(** The filter [if x.strip()] of the two loaders. *)
Definition nonblank (x : string) : bool :=
  negb (String.eqb (Str.strip x) EmptyString).

(** ** The script *)

(** The template literal of [build_deepseekcoder_instruction], lines 17-22. *)
Definition template : string :=
"
Please continue to complete the function. You are not allowed to modify the given code and do the completion only. Please return all completed function in a codeblock. Here is the given code to do completion:
```{}
{}
```
".

(** [build_deepseekcoder_instruction], lines 16-24, on two [str]. *)
Definition build_deepseekcoder_instruction (languge question : string)
  : option string :=
  Str.format (Str.strip template) [Str.lower languge; Str.strip question].

(** The fixed text in front of the code block, and the block itself. *)
Definition instruction_head : string :=
"Please continue to complete the function. You are not allowed to modify the given code and do the completion only. Please return all completed function in a codeblock. Here is the given code to do completion:
".

Definition fenced (tag body : string) : string :=
  "```" +:+ tag +:+ String Str.LF (body +:+ String Str.LF "```").

(** What the script imports. *)
Class Libs := {
  (** The file a path resolves to. *)
  realpath : string -> string;
  (** [Path(__file__).parent / "data"] *)
  data_abs_dir : string;
  (** [json.loads] ([None]: the line is not JSON) and [json.dumps]. *)
  json_loads : string -> option json;
  json_dumps : json -> string;
  (** [utils.utils.languge_settings], a dict of dicts. *)
  languge_settings : list (string * json);
  (** [utils.utils.extract_generation_code example lang_code]. *)
  extract_generation_code : json -> string -> Res json;
  (** [AutoTokenizer.from_pretrained], the constructor [LLM(...)] and
      [human_eval.evaluation.evaluate_functional_correctness], which reads
      the files it is pointed to and returns the summary that is printed. *)
  from_pretrained : string -> Res Tokenizer;
  new_LLM : LLMConfig -> Res LLM;
  evaluate_functional_correctness :
    EvalArgs -> gmap string string -> Res string;
  (** The exception [transformers.set_seed] raises on a seed it refuses. *)
  set_seed_error : Z -> option exn
}.

Section Script.

Context {libs : Libs}.

(** *** Calls to the operating system and the libraries *)

(** [os.path.exists p] *)
Definition path_exists (p : string) : M bool :=
  w <- get ;;
  let b := bool_decide (is_Some (files w !! realpath p))
           || bool_decide (realpath p ∈ dirs w) in
  log (EExists p b) ;;
  ret b.

(** [os.makedirs(p, exist_ok=True)]; intermediate directories are not
    tracked, no operation of the script names them. *)
Definition makedirs (p : string) : M unit :=
  log (EMakedirs p) ;;
  w <- get ;;
  if String.eqb p "" then raise (FileNotFoundError p)
  else if bool_decide (realpath p ∈ dirs w) then ret tt
  else if bool_decide (is_Some (files w !! realpath p))
       then raise (FileExistsError p)
  else if bool_decide (realpath p ∈ denied w) then raise (PermissionError p)
  else modify (with_dirs ({[realpath p]} ∪ dirs w)).

(** [open(p)] read to its end. *)
Definition open_r (p : string) : M string :=
  log (EOpenRead p) ;;
  w <- get ;;
  match files w !! realpath p with
  | Some text => ret text
  | None =>
      if bool_decide (realpath p ∈ dirs w) then raise (IsADirectoryError p)
      else raise (FileNotFoundError p)
  end.

(** [open(p, "w", encoding="utf-8")]: the file is created or truncated. *)
Definition open_w (p : string) : M unit :=
  log (EOpenWrite p) ;;
  w <- get ;;
  if bool_decide (realpath p ∈ dirs w) then raise (IsADirectoryError p)
  else if bool_decide (realpath p ∈ denied w) then raise (PermissionError p)
  else modify (with_files (<[realpath p := EmptyString]> (files w))).

(** [fw.write(data)] on the file opened at [p]. *)
Definition fwrite (p : string) (data : string) : M unit :=
  log (EWrite p data) ;;
  w <- get ;;
  modify (with_files (alter (fun old => old +:+ data) (realpath p) (files w))).

(** [os.environ[k] = v] *)
Definition setenv (k v : string) : M unit :=
  log (ESetEnv k v) ;;
  w <- get ;;
  modify (with_environ (<[k := v]> (environ w))).

(** [transformers.set_seed(s)] *)
Definition set_seed (s : Z) : M unit :=
  match set_seed_error s with
  | Some e => raise e
  | None => log (ESetSeed s) ;; modify (with_seed s)
  end.

Definition load_tokenizer (name : string) : M Tokenizer :=
  log (ETokenizerLoad name) ;;
  lift (from_pretrained name).

Definition chat_template (tokenizer : Tokenizer) (messages : list Message)
    (tokenize add_generation_prompt : bool) : M string :=
  log (EChatTemplate messages) ;;
  lift (apply_chat_template tokenizer messages tokenize add_generation_prompt).

Definition init_llm (cfg : LLMConfig) : M LLM :=
  log (ELLMInit cfg) ;;
  lift (new_LLM cfg).

Definition llm_generate (llm : LLM) (prompts : list string)
    (sp : SamplingParams) : M (list RequestOutput) :=
  log (EGenerate prompts sp) ;;
  lift (generate llm prompts sp).

Definition evaluate (a : EvalArgs) : M string :=
  log (EEvaluate a) ;;
  w <- get ;;
  lift (evaluate_functional_correctness a (files w)).

(** *** The loader and the writer *)

(** [[json.loads(x) for x in open(path) if x.strip()]], lines 57 and 111. *)
Definition parse_lines (text : string) : Res (list json) :=
  res_mapM (fun x => of_option JSONDecodeError (json_loads x))
           (List.filter nonblank (readlines text)).

Definition read_examples (path : string) : M (list json) :=
  text <- open_r path ;;
  lift (parse_lines text).

(** The text the writer produces for a list of records. *)
Definition jsonl (exs : list json) : string :=
  fold_right (fun ex acc => (json_dumps ex +:+ String Str.LF EmptyString) +:+ acc)
             EmptyString exs.

(** The [with open(path, "w", encoding="utf-8") as fw] blocks, lines 81-88
    and 117-124. *)
Definition save_examples (path : string) (exs : list json) : M unit :=
  open_w path ;;
  forM_ (fun ex => fwrite path (json_dumps ex +:+ String Str.LF EmptyString)) exs ;;
  print ("Save " +:+ pretty (length exs) +:+ " processed examples into "
         +:+ path +:+ " over!").

(** *** [generate_main], lines 27-99 *)

Definition problem_file_of (lang : string) : string :=
  Path.join data_abs_dir ("humaneval-" +:+ lang +:+ ".jsonl").

Definition llm_config (args : Args) : LLMConfig :=
  {| model := model_path args;
     tensor_parallel_size := gpus_num args;
     max_model_len := 8192;
     trust_remote_code := true;
     enforce_eager := true |}.

Definition sampling_params_of (tokenizer : Tokenizer) : SamplingParams :=
  {| temperature := 0;
     max_tokens := 1024;
     top_p := 95 # 100;
     stop_token_ids := [eos_token_id tokenizer] |}.

(** Lines 61-63: the instruction for one example. *)
Definition instruction_of (lang : string) (example : json) : Res string :=
  res_bind (getitem (JObj languge_settings) lang) (fun setting =>
  res_bind (getitem setting "full_name") (fun full_name =>
  res_bind (getitem example "prompt") (fun stub =>
  res_bind (as_str full_name) (fun languge =>
  res_bind (as_str stub) (fun question =>
  of_option (LibraryError "format")
            (build_deepseekcoder_instruction languge question)))))).

(** Lines 60-69: the body of the first loop. *)
Definition render (tokenizer : Tokenizer) (lang : string) (example : json)
  : M string :=
  prompt <- lift (instruction_of lang example) ;;
  chat_template tokenizer [{| role := "user"; content := prompt |}] false true.

(** Lines 73-78: the body of the second loop. *)
Definition collect (examples : list json) (lang : string)
    (io : nat * RequestOutput) : Res json :=
  res_bind (of_option IndexError (outputs (snd io) !! 0%nat)) (fun c =>
  res_bind (of_option IndexError (examples !! fst io)) (fun example =>
  res_bind (setitem example "output" (JStr (text c))) (fun example =>
  extract_generation_code example lang))).

Definition enumerate {A} (l : list A) : list (nat * A) :=
  zip (seq 0 (length l)) l.

Definition eval_args (path : string) (args : Args) : EvalArgs :=
  {| input_file := path;
     tmp_dir := temp_dir args;
     n_workers := 8;
     timeout := 3 # 1;
     eval_problem_file := problem_file_of (language args);
     eval_language := language args |}.

Definition generate_main (args : Args) : M unit :=
  enter "generate_main" ;;
  let model_name_or_path := model_path args in
  let lang := language args in
  let saved_path := output_path args in
  makedirs (temp_dir args) ;;
  let problem_file := problem_file_of lang in
  print ("model " +:+ model_name_or_path) ;;
  tokenizer <- load_tokenizer model_name_or_path ;;
  print ("load tokenizer " +:+ tok_class tokenizer +:+ " from "
         +:+ model_name_or_path +:+ " over.") ;;
  llm <- init_llm (llm_config args) ;;
  let sampling_params := sampling_params_of tokenizer in
  examples <- read_examples problem_file ;;
  print ("Read " +:+ pretty (length examples)
         +:+ " examples for evaluation over.") ;;
  messages_list <- forM (render tokenizer lang) examples ;;
  outputs <- llm_generate llm messages_list sampling_params ;;
  generated_examples <-
    lift (res_mapM (collect examples lang) (enumerate outputs)) ;;
  print "Generate all over!!!" ;;
  save_examples saved_path generated_examples ;;
  result <- evaluate (eval_args saved_path args) ;;
  print (lang +:+ " " +:+ result +:+ " " +:+ model_name_or_path).

(** *** [evaluation_only], lines 102-137 *)

Definition evaluation_only (args : Args) : M unit :=
  enter "evaluation_only" ;;
  let lang := language args in
  found <- path_exists (output_path args) ;;
  (if found : bool then ret tt
   else raise (AssertionError
                 ("Not fond output file: " +:+ output_path args))) ;;
  makedirs (temp_dir args) ;;
  let output_name := Path.basename (output_path args) in
  output_examples <- read_examples (output_path args) ;;
  processed_examples <-
    lift (res_mapM (fun ex => extract_generation_code ex lang)
                   output_examples) ;;
  let processed_path := Path.join (temp_dir args) output_name in
  save_examples processed_path processed_examples ;;
  result <- evaluate (eval_args processed_path args) ;;
  print (lang +:+ " " +:+ result).

(** *** The entry point, lines 140-166, after [parser.parse_args()] *)

Definition main (args : Args) : M unit :=
  setenv "TOKENIZERS_PARALLELISM" "false" ;;
  set_seed (seed args) ;;
  generate_main args.

(** *** Vocabulary of the proofs *)

(** Every run of [m] relates the world it starts in to the one it leaves. *)
Definition run_rel {A} (R : relation World) (m : M A) : Prop :=
  forall w r w', m w = (r, w') -> R w w'.

(** The events of a run, all of which satisfy [P]. *)
Definition emits (P : Event -> Prop) (w w' : World) : Prop :=
  exists evs, trace w' = trace w ++ evs /\ Forall P evs.

(** What no step of the two flows touches. *)
Definition settings_kept (w w' : World) : Prop :=
  environ w' = environ w /\ rng_seed w' = rng_seed w /\ denied w' = denied w.

(** The file resolved to [q] keeps its content. *)
Definition file_kept (q : string) (w w' : World) : Prop :=
  files w' !! q = files w !! q.

Definition is_generate (e : Event) : bool :=
  match e with
  | EGenerate _ _ => true
  | _ => false
  end.

Definition is_tokenizer_event (e : Event) : bool :=
  match e with
  | ETokenizerLoad _ | EChatTemplate _ => true
  | _ => false
  end.

(** The first loop without its trace: the rendered prompt of one example. *)
Definition rendered (tokenizer : Tokenizer) (lang : string) (example : json)
  : Res string :=
  res_bind (instruction_of lang example) (fun prompt =>
  apply_chat_template tokenizer [{| role := "user"; content := prompt |}]
                      false true).


Fixpoint all_chars (f : ascii -> bool) (s : string) : bool :=
  match s with
  | EmptyString => true
  | String c s' => f c && all_chars f s'
  end.

Definition no_terminator (c : ascii) : bool :=
  negb (Ascii.eqb c Str.LF) && negb (Ascii.eqb c Str.CR).

(** A run of [m] from the world [w]. *)
Definition run_at {A} (R : relation World) (w : World) (m : M A) : Prop :=
  forall r w', m w = (r, w') -> R w w'.

(** What the steps of [generate_main] around the engine call keep: they
    log no engine call, write no file and leave the settings alone. *)
Definition calm (w w' : World) : Prop :=
  emits (fun e => is_generate e = false) w w'
  /\ files w' = files w /\ settings_kept w w'.

(** What the steps after the engine call keep. *)
Definition quiet (w w' : World) : Prop :=
  emits (fun e => is_generate e = false) w w' /\ settings_kept w w'.

(** The line the writer produces for one record. *)
Definition line_of (ex : json) : string :=
  json_dumps ex +:+ String Str.LF EmptyString.

Definition processed_path_of (args : Args) : string :=
  Path.join (temp_dir args) (Path.basename (output_path args)).

(** [os.path.exists] in a world. *)
Definition exists_in (w : World) (p : string) : bool :=
  bool_decide (is_Some (files w !! realpath p))
  || bool_decide (realpath p ∈ dirs w).

(** What an evaluate-only run may do when the processed copy is another
    file than the output file: read the output file, write the processed
    copy and hand it to the evaluator; the output file keeps its content. *)
Definition reads_and_writes (out proc : string) (e : Event) : Prop :=
  match e with
  | EOpenRead p => p = out
  | EOpenWrite p | EWrite p _ => p = proc
  | EEvaluate a => input_file a = proc
  | _ => True
  end.

Definition aside (out proc : string) (w w' : World) : Prop :=
  emits (reads_and_writes out proc) w w'
  /\ file_kept (realpath out) w w'.

(** The world in which [generate_main] starts: flag set, seed applied. *)
Definition started (args : Args) (w : World) : World :=
  {| files := files w; dirs := dirs w; denied := denied w;
     environ := <["TOKENIZERS_PARALLELISM" := "false"]> (environ w);
     rng_seed := Some (seed args);
     trace := trace w ++ [ESetEnv "TOKENIZERS_PARALLELISM" "false";
                          ESetSeed (seed args)] |}.

Definition never_evaluation_only : relation World :=
  emits (fun e => e <> EEnter "evaluation_only").

Definition settings_stay (w w' : World) : Prop :=
  emits (fun _ => True) w w' /\ settings_kept w w'.

(** *** Vocabulary of the further properties *)

Definition starts_clean (s : string) : bool :=
  match s with
  | EmptyString => true
  | String c _ => negb (Str.isspace c)
  end.

Definition not_lf (c : ascii) : bool := negb (Ascii.eqb c Str.LF).

Definition not_cr (c : ascii) : bool := negb (Ascii.eqb c Str.CR).

(** A run may write the file [out] resolves to and create the directory
    [temp] resolves to; every other file and directory, and the settings,
    stay. *)
Definition touches_only (out temp : string) (w w' : World) : Prop :=
  (forall q, realpath out <> q -> files w' !! q = files w !! q)
  /\ dirs w ⊆ dirs w'
  /\ dirs w' ⊆ dirs w ∪ {[realpath temp]}
  /\ settings_kept w w'.

(** The events of loading or using a model, and of the entry point. *)
Definition is_model_event (e : Event) : bool :=
  match e with
  | ETokenizerLoad _ | EChatTemplate _ | ELLMInit _ | EGenerate _ _
  | ESetEnv _ _ | ESetSeed _ => true
  | _ => false
  end.

Definition model_free : relation World :=
  emits (fun e => is_model_event e = false).

(** The world once [e] is logged. *)
Definition logged (e : Event) (w : World) : World := snd (log e w).

Definition is_evaluate (e : Event) : bool :=
  match e with
  | EEvaluate _ => true
  | _ => false
  end.

Definition before_evaluation : relation World :=
  emits (fun e => is_evaluate e = false).

End Script.

(** ** The extractor, which is not part of the file *)

(** Modelled from the spec: [utils/utils.py], which defines
    [extract_generation_code], is missing.  The specification (4.3, and
    component 4 of its overview) has the extractor take a generation record
    and a language tag, parse the raw completion of the record, merge it
    with the original stub as needed, and return the record augmented with
    a [code] field; how the code is found in the raw text is left open, one
    strategy per language, which must not raise.  [strategy lang stub raw]
    is that open part. *)
Definition extract_generation_code_spec
    (strategy : string -> string -> string -> string)
    (example : json) (lang_code : string) : Res json :=
  res_bind (getitem example "output") (fun output =>
  res_bind (getitem example "prompt") (fun prompt =>
  res_bind (as_str output) (fun raw =>
  res_bind (as_str prompt) (fun stub =>
  setitem example "code" (JStr (strategy lang_code stub raw)))))).

(** ** A stub installation

    Two problems, a tokenizer that passes the instruction through, an engine
    that answers every prompt with the same completion, and a line format
    that names a record by its task: enough to run both flows. *)

Module Stub.

Definition nl : string := String Str.LF EmptyString.

Definition problem (task stub : string) : json :=
  JObj [("task_id", JStr task); ("prompt", JStr stub)].

Definition problem0 : json := problem "HumanEval/0" ("def add(a, b):" +:+ nl).
Definition problem1 : json := problem "HumanEval/1" ("def one():" +:+ nl).

Definition completion : string := "    return 1".

Definition strategy (lang stub raw : string) : string :=
  Str.strip stub +:+ nl +:+ raw.

Definition extract : json -> string -> Res json :=
  extract_generation_code_spec strategy.

Definition with_output (p : json) : json :=
  match setitem p "output" (JStr completion) with
  | Ok r => r
  | Err _ => JNull
  end.

Definition record_of (p : json) : json :=
  match extract (with_output p) "python" with
  | Ok r => r
  | Err _ => JNull
  end.

Definition dumps (j : json) : string :=
  match getitem j "task_id", getitem j "code" with
  | Ok (JStr t), Ok _ => "done " +:+ t
  | Ok (JStr t), Err _ => "todo " +:+ t
  | _, _ => "null"
  end.

Definition loads (x : string) : option json :=
  let s := Str.strip x in
  if String.eqb s "todo HumanEval/0" then Some problem0
  else if String.eqb s "todo HumanEval/1" then Some problem1
  else if String.eqb s "done HumanEval/0" then Some (record_of problem0)
  else if String.eqb s "done HumanEval/1" then Some (record_of problem1)
  else None.

Definition tokenizer : Tokenizer :=
  {| tok_class := "<class StubTokenizer>";
     eos_token_id := Some 2%Z;
     apply_chat_template := fun messages _ _ =>
       Ok (String.concat "" (map content messages)) |}.

Definition llm : LLM :=
  {| generate := fun prompts _ =>
       Ok (map (fun _ => {| outputs := [{| text := completion |}] |})
               prompts) |}.

(** [numpy], under [transformers.set_seed], takes seeds in 0..2^32-1. *)
Definition seed_error (s : Z) : option exn :=
  if ((0 <=? s) && (s <? 2 ^ 32))%Z then None
  else Some (LibraryError "ValueError: Seed must be between 0 and 2**32 - 1").

Definition libs : Libs :=
  {| realpath := fun p => p;
     data_abs_dir := "data";
     json_loads := loads;
     json_dumps := dumps;
     languge_settings := [("python", JObj [("full_name", JStr "Python")])];
     extract_generation_code := extract;
     from_pretrained := fun _ => Ok tokenizer;
     new_LLM := fun _ => Ok llm;
     evaluate_functional_correctness := fun _ _ => Ok "pass@1: 0.5";
     set_seed_error := seed_error |}.

Definition args0 : Args :=
  {| model_path := "stub-model"; gpus_num := 1;
     output_path := "outputs/out.jsonl"; language := "python";
     temp_dir := "tmp"; seed := 42 |}.

(** The problem file holds two problems and a blank line between them. *)
Definition world0 : World :=
  {| files := {[ "data/humaneval-python.jsonl" :=
                   "todo HumanEval/0" +:+ nl +:+ "  " +:+ nl
                   +:+ "todo HumanEval/1" +:+ nl ]};
     dirs := {[ "data"; "outputs" ]};
     denied := ∅; environ := ∅; rng_seed := None; trace := [] |}.

(** The entry point and the generate+evaluate flow on [args0]; the
    evaluate-only flow before and after the latter. *)
Definition entered : Res unit * World := main (libs := libs) args0 world0.
Definition generated : Res unit * World :=
  generate_main (libs := libs) args0 world0.
Definition too_early : Res unit * World :=
  evaluation_only (libs := libs) args0 world0.
Definition reevaluated : Res unit * World :=
  evaluation_only (libs := libs) args0 (snd generated).

(** Output path inside the temporary directory. *)
Definition args_same : Args :=
  {| model_path := "stub-model"; gpus_num := 1;
     output_path := "tmp/out.jsonl"; language := "python";
     temp_dir := "tmp"; seed := 42 |}.

Definition world_same : World :=
  {| files := {[ "tmp/out.jsonl" := "done HumanEval/0" +:+ nl +:+ nl ]};
     dirs := {[ "tmp" ]};
     denied := ∅; environ := ∅; rng_seed := None; trace := [] |}.

Definition overwritten : Res unit * World :=
  evaluation_only (libs := libs) args_same world_same.

(** A language [languge_settings] does not know, with a problem file of
    blank lines and with one of a single problem. *)
Definition args_rust : Args :=
  {| model_path := "stub-model"; gpus_num := 1;
     output_path := "outputs/out.jsonl"; language := "rust";
     temp_dir := "tmp"; seed := 42 |}.

Definition world_blank : World :=
  {| files := {[ "data/humaneval-rust.jsonl" := nl +:+ "  " +:+ nl ]};
     dirs := {[ "data"; "outputs"; "tmp" ]};
     denied := ∅; environ := ∅; rng_seed := None; trace := [] |}.

Definition world_rust : World :=
  {| files := {[ "data/humaneval-rust.jsonl" := "todo HumanEval/0" +:+ nl ]};
     dirs := {[ "data"; "outputs"; "tmp" ]};
     denied := ∅; environ := ∅; rng_seed := None; trace := [] |}.

Definition without_problems : Res unit * World :=
  generate_main (libs := libs) args_rust world_blank.

(** No problem file; a directory where the output file should be. *)
Definition world_bare : World :=
  {| files := ∅; dirs := {[ "tmp" ]};
     denied := ∅; environ := ∅; rng_seed := None; trace := [] |}.

Definition world_dir : World :=
  {| files := ∅; dirs := {[ "tmp"; "outputs/out.jsonl" ]};
     denied := ∅; environ := ∅; rng_seed := None; trace := [] |}.

(** Two records saved and loaded again. *)
Definition records : list json := [record_of problem0; record_of problem1].

Definition saved : Res unit * World :=
  save_examples (libs := libs) "outputs/x.jsonl" records world0.

Definition reloaded : Res (list json) * World :=
  read_examples (libs := libs) "outputs/x.jsonl" (snd saved).

End Stub.

(** * Properties *)

Section Proofs.

Context {libs : Libs}.

(** ** Strings *)

Lemma prefix_app s t : String.prefix s (s +:+ t) = true.
Proof.
  induction s as [|c s IH]; simpl; [by destruct t|].
  destruct (ascii_dec c c); done.
Qed.

Lemma is_infix_prefix s t :
  String.prefix s t = true -> Str.is_infix s t = true.
Proof. intros H. destruct t; cbn [Str.is_infix]; rewrite H; done. Qed.

Lemma is_infix_app a s b : Str.is_infix s (a +:+ s +:+ b) = true.
Proof.
  induction a as [|c a IH].
  - change (Str.is_infix s (s +:+ b) = true). apply is_infix_prefix, prefix_app.
  - simpl. rewrite IH. apply orb_true_r.
Qed.

Lemma prefix_cons a s b t :
  String.prefix (String a s) (String b t) = Ascii.eqb a b && String.prefix s t.
Proof.
  cbn [String.prefix]. destruct (ascii_dec a b) as [->|Hne].
  - by rewrite Ascii.eqb_refl.
  - apply Ascii.eqb_neq in Hne. by rewrite Hne.
Qed.

Lemma prefix_fence_cons c s :
  Ascii.eqb c Str.backtick = false -> String.prefix "```" (String c s) = false.
Proof.
  intros H. rewrite prefix_cons, Ascii.eqb_sym.
  change "`"%char with Str.backtick. by rewrite H.
Qed.

Lemma fences_cons c s :
  Ascii.eqb c Str.backtick = false -> Str.fences (String c s) = Str.fences s.
Proof. intros H. cbn [Str.fences]. by rewrite prefix_fence_cons. Qed.

Lemma fences_app a s :
  Str.no_backtick a = true -> Str.fences (a +:+ s) = Str.fences s.
Proof.
  induction a as [|c a IH]; [done|].
  cbn [Str.no_backtick]. intros [H1 H2]%andb_true_iff.
  apply negb_true_iff in H1.
  change (String c a +:+ s) with (String c (a +:+ s)).
  rewrite fences_cons; auto.
Qed.

Lemma fences_open d s :
  Ascii.eqb d Str.backtick = false ->
  Str.fences ("```" +:+ String d s) = S (Str.fences s).
Proof.
  intros H.
  change ("```" +:+ String d s)
    with (String "`" (String "`" (String "`" (String d s)))).
  cbn [Str.fences]. rewrite !prefix_cons, !(Ascii.eqb_sym _ d).
  change "`"%char with Str.backtick. rewrite H.
  rewrite !Ascii.eqb_refl, !andb_false_r. cbn [andb String.prefix].
  destruct s; reflexivity.
Qed.

Lemma fences_fenced tag body :
  Str.no_backtick tag = true -> Str.no_backtick body = true ->
  Str.fences (fenced tag body) = 2%nat.
Proof.
  intros Ht Hb. unfold fenced.
  set (rest := body +:+ String Str.LF "```").
  assert (Hrest : Str.fences rest = 1%nat).
  { unfold rest. rewrite fences_app by done. reflexivity. }
  destruct tag as [|c tag].
  - change ("" +:+ String Str.LF rest) with (String Str.LF rest).
    rewrite fences_open by done. by rewrite Hrest.
  - cbn [Str.no_backtick] in Ht.
    apply andb_true_iff in Ht as [Hc Ht]. apply negb_true_iff in Hc.
    change (String c tag +:+ String Str.LF rest)
      with (String c (tag +:+ String Str.LF rest)).
    rewrite fences_open by done. rewrite fences_app by done.
    rewrite fences_cons by done. by rewrite Hrest.
Qed.

Lemma string_app_assoc (a b c : string) : (a +:+ b) +:+ c = a +:+ (b +:+ c).
Proof.
  induction a as [|x a IH]; [done|].
  change (String x ((a +:+ b) +:+ c) = String x (a +:+ b +:+ c)). by f_equal.
Qed.

(** C1 (amended). For every display name [L] and stub [Q] the instruction
    is the fixed text followed by one code block: the fixed text holds no
    fence, the block is tagged with [L] lowercased and holds [Q] with its
    leading and trailing white space stripped, verbatim; when neither the
    tag nor the stripped stub holds a backtick the whole instruction has
    exactly the opening and the closing fence. *)
Theorem build_instruction_one_block (L Q : string) :
  build_deepseekcoder_instruction L Q
    = Some (instruction_head +:+ fenced (Str.lower L) (Str.strip Q))
  /\ Str.fences instruction_head = 0%nat
  /\ Str.is_infix (Str.strip Q)
       (instruction_head +:+ fenced (Str.lower L) (Str.strip Q)) = true
  /\ (Str.no_backtick (Str.lower L) = true ->
      Str.no_backtick (Str.strip Q) = true ->
      Str.fences (instruction_head +:+ fenced (Str.lower L) (Str.strip Q))
        = 2%nat).
Proof.
  split; [reflexivity|]. split; [by vm_compute|]. split.
  - unfold fenced.
    replace (instruction_head +:+
               "```" +:+ Str.lower L +:+
               String Str.LF (Str.strip Q +:+ String Str.LF "```"))
      with ((instruction_head +:+ "```" +:+ Str.lower L +:+ String Str.LF "")
              +:+ Str.strip Q +:+ String Str.LF "```").
    + apply is_infix_app.
    + rewrite !string_app_assoc. reflexivity.
  - intros Ht Hb. rewrite fences_app by (by vm_compute).
    by apply fences_fenced.
Qed.

(** ** Runs of the monad *)

Lemma bind_inv {A B} (m : M A) (k : A -> M B) w r w' :
  bind m k w = (r, w') ->
  (exists e, m w = (Err e, w') /\ r = Err e)
  \/ (exists a w1, m w = (Ok a, w1) /\ k a w1 = (r, w')).
Proof.
  unfold bind. destruct (m w) as [[a|e] w1]; intros H.
  - right. eauto.
  - left. inversion H; subst. eauto.
Qed.

#[local] Instance emits_preorder P : PreOrder (emits P).
Proof.
  split.
  - intros w. exists []. by rewrite app_nil_r.
  - intros w1 w2 w3 (e1 & H1 & F1) (e2 & H2 & F2). exists (e1 ++ e2).
    split; [by rewrite H2, H1, app_assoc|by apply Forall_app].
Qed.

#[local] Instance settings_kept_preorder : PreOrder settings_kept.
Proof.
  split; [by intros w|].
  intros w1 w2 w3 (? & ? & ?) (? & ? & ?). repeat split; congruence.
Qed.

#[local] Instance file_kept_preorder q : PreOrder (file_kept q).
Proof.
  split; [by intros w|]. unfold file_kept. intros w1 w2 w3 ? ?. congruence.
Qed.

#[local] Instance files_same_preorder :
  PreOrder (fun w w' : World => files w' = files w).
Proof. split; [by intros w|]. intros w1 w2 w3 ? ?. congruence. Qed.

#[local] Instance both_preorder (R1 R2 : relation World) :
  PreOrder R1 -> PreOrder R2 -> PreOrder (fun w w' => R1 w w' /\ R2 w w').
Proof.
  intros H1 H2. split.
  - intros w. split; reflexivity.
  - intros w1 w2 w3 [? ?] [? ?]. split; etrans; eauto.
Qed.

Section RunRel.
Context (R : relation World) `{!PreOrder R}.

Lemma run_rel_ret {A} (a : A) : run_rel R (ret a).
Proof. intros w r w' [= <- <-]. reflexivity. Qed.

Lemma run_rel_raise {A} e : run_rel R (@raise A e).
Proof. intros w r w' [= <- <-]. reflexivity. Qed.

Lemma run_rel_lift {A} (x : Res A) : run_rel R (lift x).
Proof. intros w r w' [= <- <-]. reflexivity. Qed.

Lemma run_rel_get : run_rel R get.
Proof. intros w r w' [= <- <-]. reflexivity. Qed.

Lemma run_rel_bind {A B} (m : M A) (k : A -> M B) :
  run_rel R m -> (forall a, run_rel R (k a)) -> run_rel R (bind m k).
Proof.
  intros Hm Hk w r w' [(e & H1 & _)|(a & w1 & H1 & H2)]%bind_inv.
  - eapply Hm, H1.
  - etrans; [eapply Hm, H1|eapply Hk, H2].
Qed.

Lemma run_rel_forM {A B} (f : A -> M B) l :
  (forall x, run_rel R (f x)) -> run_rel R (forM f l).
Proof.
  intros Hf. induction l as [|x l IH]; cbn [forM].
  - apply run_rel_ret.
  - apply run_rel_bind; [apply Hf|]. intros y.
    apply run_rel_bind; [apply IH|]. intros ys. apply run_rel_ret.
Qed.

Lemma run_rel_forM_ {A} (f : A -> M unit) l :
  (forall x, run_rel R (f x)) -> run_rel R (forM_ f l).
Proof.
  intros Hf. induction l as [|x l IH]; cbn [forM_].
  - apply run_rel_ret.
  - apply run_rel_bind; [apply Hf|]. intros _. apply IH.
Qed.

Lemma run_rel_log e : (forall w, R w (snd (log e w))) -> run_rel R (log e).
Proof. intros H w r w' Hrun. specialize (H w). by rewrite Hrun in H. Qed.

Lemma run_rel_modify f : (forall w, R w (f w)) -> run_rel R (modify f).
Proof. intros H w r w' [= <- <-]. apply H. Qed.

Lemma run_rel_bind_get {A} (k : World -> M A) :
  (forall w, run_at R w (k w)) -> run_rel R (bind get k).
Proof.
  intros Hk w r w' [(e & [=] & _)|(a & w1 & [= <- <-] & H)]%bind_inv.
  by eapply Hk.
Qed.

Lemma run_at_weaken {A} w (m : M A) : run_rel R m -> run_at R w m.
Proof. intros Hm r w' H. by eapply Hm. Qed.

Lemma run_at_modify w f : R w (f w) -> run_at R w (modify f).
Proof. by intros H r w' [= <- <-]. Qed.

(** One step of a run that has kept [R] so far. *)
Lemma bind_run {A B} (m : M A) (k : A -> M B) w0 w r w' :
  run_rel R m -> R w0 w -> bind m k w = (r, w') ->
  (R w0 w' /\ exists e, r = Err e)
  \/ (exists a w1, m w = (Ok a, w1) /\ R w0 w1 /\ k a w1 = (r, w')).
Proof.
  intros Hm H0 [(e & H1 & ->)|(a & w1 & H1 & H2)]%bind_inv.
  - left. split; [|eauto]. etrans; [exact H0|eapply Hm, H1].
  - right. exists a, w1. repeat split; [done| |done].
    etrans; [exact H0|eapply Hm, H1].
Qed.
End RunRel.

(** Decomposes a program into its calls; what is left are the events it
    logs and the changes it makes to the world. *)
Ltac run_rel_steps :=
  repeat match goal with
    | |- run_rel ?R (ret _) => apply (run_rel_ret R)
    | |- run_rel ?R (raise _) => apply (run_rel_raise R)
    | |- run_rel ?R (lift _) => apply (run_rel_lift R)
    | |- run_rel ?R get => apply (run_rel_get R)
    | |- run_rel ?R (bind get _) => apply (run_rel_bind_get R); intros ?
    | |- run_at _ _ (if ?b then _ else _) => destruct b
    | |- run_at _ _ (match ?x with _ => _ end) => destruct x
    | |- run_at ?R ?w (modify _) => apply (run_at_modify R w)
    | |- run_at ?R ?w _ => apply (run_at_weaken R w)
    | |- run_rel ?R (bind _ _) => apply (run_rel_bind R); [|intros ?]
    | |- run_rel ?R (forM _ _) => apply (run_rel_forM R); intros ?
    | |- run_rel ?R (forM_ _ _) => apply (run_rel_forM_ R); intros ?
    | |- run_rel _ (if ?b then _ else _) => destruct b
    | |- run_rel _ (match ?x with _ => _ end) => destruct x
    | |- run_rel _ _ =>
        progress unfold enter, print, makedirs, path_exists, open_r, open_w,
          fwrite, setenv, set_seed, load_tokenizer, chat_template, init_llm,
          llm_generate, evaluate, read_examples, save_examples, render
    end.

Lemma emits_log (P : Event -> Prop) e w : P e -> emits P w (snd (log e w)).
Proof. intros H. exists [e]. split; [done|]. by constructor. Qed.

Lemma emits_same_trace (P : Event -> Prop) w w' :
  trace w' = trace w -> emits P w w'.
Proof. intros H. exists []. by rewrite app_nil_r. Qed.

Ltac rel_leaf :=
  cbn beta;
  repeat match goal with
    | |- _ /\ _ => split
    | |- emits _ _ (snd (log _ _)) => apply emits_log; cbn; try done
    | |- emits _ _ _ => apply emits_same_trace; done
    | |- settings_kept _ _ => by repeat split
    | |- file_kept _ _ _ =>
        unfold file_kept; cbn;
        rewrite ?lookup_insert_ne, ?lookup_alter_ne by done; done
    | |- _ = _ => done
    end.

(** [unfold_rel] unfolds the relation of the goal at its leaves. *)
Ltac run_rel_with unfold_rel :=
  run_rel_steps;
  first [ apply run_rel_log; intros ?; unfold_rel; rel_leaf
        | apply run_rel_modify; intros ?; unfold_rel; rel_leaf
        | unfold_rel; rel_leaf ].

#[local] Instance calm_preorder : PreOrder calm.
Proof. unfold calm. apply _. Qed.

Lemma log_run e w r w' :
  log e w = (r, w') ->
  r = Ok tt /\ trace w' = trace w ++ [e] /\ files w' = files w
  /\ dirs w' = dirs w /\ settings_kept w w'.
Proof. intros [= <- <-]. by repeat split. Qed.

Lemma load_tokenizer_ok name w tokenizer w' :
  load_tokenizer name w = (Ok tokenizer, w') ->
  from_pretrained name = Ok tokenizer.
Proof.
  unfold load_tokenizer. intros [(e & _ & [=])|(a & w1 & _ & H)]%bind_inv.
  by inversion H.
Qed.

Lemma init_llm_ok cfg w llm w' :
  init_llm cfg w = (Ok llm, w') -> new_LLM cfg = Ok llm.
Proof.
  unfold init_llm. intros [(e & _ & [=])|(a & w1 & _ & H)]%bind_inv.
  by inversion H.
Qed.

Lemma read_examples_ok path w examples w' :
  read_examples path w = (Ok examples, w') ->
  exists text, files w !! realpath path = Some text
               /\ parse_lines text = Ok examples.
Proof.
  unfold read_examples.
  intros [(e & _ & [=])|(text & w1 & Hopen & H)]%bind_inv.
  exists text. split; [|by inversion H].
  unfold open_r in Hopen.
  apply bind_inv in Hopen as [(e & _ & [=])|([] & w2 & Hlog & Hopen)].
  apply log_run in Hlog as (_ & _ & Hf & _).
  apply bind_inv in Hopen as [(e & _ & [=])|(w3 & w4 & [= <- <-] & Hopen)].
  rewrite Hf in Hopen.
  destruct (files w !! realpath path) as [t|]; [by inversion Hopen|].
  by destruct (bool_decide _).
Qed.

Lemma llm_generate_run llm prompts sp w r w' :
  llm_generate llm prompts sp w = (r, w') ->
  r = generate llm prompts sp
  /\ trace w' = trace w ++ [EGenerate prompts sp]
  /\ files w' = files w /\ settings_kept w w'.
Proof.
  unfold llm_generate.
  intros [(e & Hlog & _)|([] & w1 & Hlog & H)]%bind_inv.
  - by apply log_run in Hlog as ([=] & _).
  - apply log_run in Hlog as (_ & ? & ? & ? & ?). by inversion H; subst.
Qed.

Lemma render_loop tokenizer lang examples w prompts w' :
  forM (render tokenizer lang) examples w = (Ok prompts, w') ->
  res_mapM (rendered tokenizer lang) examples = Ok prompts.
Proof.
  revert w prompts. induction examples as [|ex exs IH]; intros w prompts.
  - by intros [= <- _].
  - cbn [forM res_mapM].
    intros [(e & _ & [=])|(p & w1 & Hp & H)]%bind_inv.
    apply bind_inv in H as [(e & _ & [=])|(ps & w2 & Hps & [= <- <-])].
    apply IH in Hps. rewrite Hps.
    assert (rendered tokenizer lang ex = Ok p) as ->; [|done].
    unfold render in Hp. unfold rendered.
    apply bind_inv in Hp as [(e & _ & [=])|(i & w3 & [= -> <-] & Hp)].
    unfold chat_template in Hp. cbn [res_bind].
    apply bind_inv in Hp as [(e & _ & [=])|([] & w4 & _ & Hp)].
    by inversion Hp.
Qed.

Lemma alter_present (f : string -> string) (m : gmap string string) i x :
  m !! i = Some x -> alter f i m = <[i := f x]> m.
Proof.
  intros H. apply map_eq. intros j. destruct (decide (i = j)) as [<-|Hne].
  - by rewrite lookup_alter_eq, lookup_insert_eq, H.
  - by rewrite lookup_alter_ne, lookup_insert_ne.
Qed.

Lemma fwrite_run p data w r w' :
  fwrite p data w = (r, w') ->
  r = Ok tt /\ trace w' = trace w ++ [EWrite p data]
  /\ files w' = alter (fun old => old +:+ data) (realpath p) (files w)
  /\ dirs w' = dirs w /\ settings_kept w w'.
Proof.
  unfold fwrite. intros [(e & Hlog & _)|([] & w1 & Hlog & H)]%bind_inv.
  - by apply log_run in Hlog as ([=] & _).
  - apply log_run in Hlog as (_ & Ht & Hf & Hd & Hs).
    apply bind_inv in H as [(e & [=] & _)|(w2 & w3 & [= <- <-] & H)].
    inversion H; subst. cbn. rewrite Hf. destruct Hs as (? & ? & ?).
    by repeat split.
Qed.

Lemma write_loop p exs : forall w r w' old,
  forM_ (fun ex => fwrite p (line_of ex)) exs w = (r, w') ->
  files w !! realpath p = Some old ->
  r = Ok tt
  /\ trace w' = trace w ++ map (fun ex => EWrite p (line_of ex)) exs
  /\ files w' = <[realpath p := old +:+ jsonl exs]> (files w)
  /\ dirs w' = dirs w /\ settings_kept w w'.
Proof.
  induction exs as [|ex exs IH]; intros w r w' old.
  - intros [= <- <-] Hold. cbn [jsonl fold_right map].
    rewrite app_nil_r. repeat split; try done.
    rewrite insert_id; [done|]. rewrite Hold. f_equal.
    clear. induction old as [|c old IH]; [done|].
    change (String c old = String c (old +:+ "")). by f_equal.
  - cbn [forM_]. intros [(e & Hw & _)|([] & w1 & Hw & H)]%bind_inv Hold.
    + by apply fwrite_run in Hw as ([=] & _).
    + apply fwrite_run in Hw as (_ & Ht & Hf & Hd & Hs).
      rewrite (alter_present _ _ _ _ Hold) in Hf.
      eapply IH in H as (-> & Ht' & Hf' & Hd' & Hs');
        [|by rewrite Hf, lookup_insert_eq].
      split; [done|]. split.
      { rewrite Ht', Ht. cbn [map]. by rewrite <- app_assoc. }
      split.
      { rewrite Hf', Hf, insert_insert_eq. f_equal.
        cbn [jsonl fold_right]. fold (jsonl exs). fold (line_of ex).
        by rewrite string_app_assoc. }
      split; [congruence|]. by etrans.
Qed.

Lemma save_examples_ok path exs w w' :
  save_examples path exs w = (Ok tt, w') ->
  files w' = <[realpath path := jsonl exs]> (files w)
  /\ settings_kept w w'
  /\ emits (fun e => is_generate e = false) w w'.
Proof.
  unfold save_examples.
  intros [(e & _ & [=])|([] & w1 & Hopen & H)]%bind_inv.
  apply bind_inv in H as [(e & _ & [=])|([] & w2 & Hloop & Hprint)].
  apply log_run in Hprint as (_ & Ht3 & Hf3 & _ & Hs3).
  unfold open_w in Hopen.
  apply bind_inv in Hopen as [(e & _ & [=])|([] & w3 & Hlog & Hopen)].
  apply log_run in Hlog as (_ & Ht1 & Hf1 & Hd1 & Hs1).
  apply bind_inv in Hopen as [(e & [=] & _)|(w4 & w5 & [= <- <-] & Hopen)].
  destruct (bool_decide _); [done|]. destruct (bool_decide _); [done|].
  inversion Hopen; subst w1; clear Hopen.
  eapply write_loop in Hloop as (_ & Ht2 & Hf2 & _ & Hs2);
    [|cbn; apply lookup_insert_eq].
  cbn in Hf2, Ht2, Hs2. split.
  { rewrite Hf3, Hf2, insert_insert_eq, Hf1. done. }
  split.
  { etrans; [exact Hs1|]. etrans; [|exact Hs3]. exact Hs2. }
  eexists. rewrite Ht3, Ht2, Ht1, <- !app_assoc. split; [done|].
  constructor; [done|]. apply Forall_app. split; [|by repeat constructor].
  clear. induction exs; by constructor.
Qed.

Lemma res_mapM_Forall2 {A B} (f : A -> Res B) l ys :
  res_mapM f l = Ok ys -> Forall2 (fun x y => f x = Ok y) l ys.
Proof.
  revert ys. induction l as [|x l IH]; intros ys; cbn [res_mapM].
  - intros [= <-]. constructor.
  - destruct (f x) as [y|] eqn:Hx; [|done]. cbn [res_bind].
    destruct (res_mapM f l) as [ys'|]; [|done]. intros [= <-].
    constructor; auto.
Qed.

Lemma enumerate_lookup {A} (l : list A) i x :
  l !! i = Some x -> enumerate l !! i = Some (i, x).
Proof.
  intros H. unfold enumerate. apply lookup_zip_with_Some.
  exists i, x. split; [done|]. split; [|done].
  apply lookup_seq. split; [done|]. by eapply lookup_lt_Some.
Qed.

Lemma enumerate_length {A} (l : list A) : length (enumerate l) = length l.
Proof. unfold enumerate. rewrite length_zip, length_seq. lia. Qed.

(** The second loop: record [i] comes from example [i] and from the first
    completion of output [i]. *)
Lemma collect_records examples lang outs records :
  res_mapM (collect examples lang) (enumerate outs) = Ok records ->
  length records = length outs
  /\ forall i o, outs !! i = Some o ->
       exists c ex ex' rec,
         outputs o !! 0%nat = Some c /\ examples !! i = Some ex
         /\ setitem ex "output" (JStr (text c)) = Ok ex'
         /\ extract_generation_code ex' lang = Ok rec
         /\ records !! i = Some rec.
Proof.
  intros H%res_mapM_Forall2. split.
  { apply Forall2_length in H. by rewrite enumerate_length in H. }
  intros i o Ho. apply enumerate_lookup in Ho.
  destruct (Forall2_lookup_l _ _ _ _ _ H Ho) as (rec & Hrec & Hc).
  unfold collect in Hc. cbn [fst snd] in Hc.
  destruct (outputs o !! 0%nat) as [c|]; [|done].
  destruct (examples !! i) as [ex|]; [|done]. cbn [of_option res_bind] in Hc.
  destruct (setitem ex "output" (JStr (text c))) as [ex'|] eqn:Hset; [|done].
  exists c, ex, ex', rec. done.
Qed.

#[local] Instance quiet_preorder : PreOrder quiet.
Proof. unfold quiet. apply _. Qed.

Ltac calm_run := run_rel_with ltac:(unfold calm).

Ltac walk w0 H Hcalm :=
  let Hn := fresh "Hn" in
  eapply (bind_run calm _ _ w0) in H;
  [ destruct H as [[? (? & ->)]|(? & ? & ? & Hn & H)];
    [|try clear Hcalm; rename Hn into Hcalm]
  | calm_run
  | first [exact Hcalm | reflexivity] ].

(** Every run of [generate_main]: it stops before the engine is called, or
    the engine is called once, with every rendered prompt and the fixed
    sampling configuration; a run that ends normally has then written the
    collected records to the output file. *)
Lemma generate_main_run args w r w' :
  generate_main args w = (r, w') ->
  (calm w w' /\ exists e, r = Err e)
  \/ exists tokenizer llm text examples prompts w1 w2,
       from_pretrained (model_path args) = Ok tokenizer
       /\ new_LLM (llm_config args) = Ok llm
       /\ files w !! realpath (problem_file_of (language args)) = Some text
       /\ parse_lines text = Ok examples
       /\ res_mapM (rendered tokenizer (language args)) examples = Ok prompts
       /\ calm w w1
       /\ trace w2 = trace w1
                     ++ [EGenerate prompts (sampling_params_of tokenizer)]
       /\ emits (fun e => is_generate e = false) w2 w'
       /\ settings_kept w w'
       /\ (r = Ok tt ->
           exists outs records,
             generate llm prompts (sampling_params_of tokenizer) = Ok outs
             /\ res_mapM (collect examples (language args)) (enumerate outs)
                = Ok records
             /\ files w'
                = <[realpath (output_path args) := jsonl records]> (files w)).
Proof.
  unfold generate_main. intros H.
  walk w H Hc; [left; by eauto|].
  walk w H Hc; [left; by eauto|].
  walk w H Hc; [left; by eauto|].
  walk w H Hc; [left; by eauto|].
  match goal with Hm : load_tokenizer _ _ = _ |- _ =>
    apply load_tokenizer_ok in Hm; rename Hm into Htok end.
  walk w H Hc; [left; by eauto|].
  walk w H Hc; [left; by eauto|].
  match goal with Hm : init_llm _ _ = _ |- _ =>
    apply init_llm_ok in Hm; rename Hm into Hllm end.
  pose proof Hc as Hbefore.
  walk w H Hc; [left; by eauto|].
  match goal with Hm : read_examples _ _ = _ |- _ =>
    apply read_examples_ok in Hm as (text & Htext & Hparse) end.
  destruct Hbefore as (_ & Hfiles & _). rewrite Hfiles in Htext.
  walk w H Hc; [left; by eauto|].
  walk w H Hc; [left; by eauto|].
  match goal with Hm : forM _ _ _ = _ |- _ =>
    apply render_loop in Hm; rename Hm into Hprompts end.
  right.
  match goal with Hx : Tokenizer, Hy : LLM |- _ => exists Hx, Hy end.
  exists text.
  match goal with _ : parse_lines text = Ok ?exs |- _ => exists exs end.
  match goal with _ : res_mapM _ _ = Ok ?ps |- _ => exists ps end.
  match goal with _ : calm w ?w1 |- _ => exists w1 end.
  apply bind_inv in H as [(e & Hgen & ->)|(outs & w2 & Hgen & H)];
    apply llm_generate_run in Hgen as (Hres & Htr & Hfg & Hsg).
  { exists w'. split_and!; try done; try reflexivity.
    destruct Hc as (_ & _ & Hs). by etrans. }
  exists w2.
  assert (Hpost : emits (fun e => is_generate e = false) w2 w'
                  /\ settings_kept w2 w').
  { assert (Hq : quiet w2 w'); [|by destruct Hq].
    revert H. generalize w2 r w'.
    match goal with
    | |- forall u s u', ?m u = (s, u') -> _ => change (run_rel quiet m)
    end.
    run_rel_with ltac:(unfold quiet). }
  destruct Hpost as [Hev Hset].
  split_and!; try done.
  { destruct Hc as (_ & _ & Hs). etrans; [exact Hs|]. by etrans. }
  intros ->.
  apply bind_inv in H as [(e & _ & [=])|(records & w3 & [= Hrec <-] & H)].
  apply bind_inv in H as [(e & _ & [=])|([] & w4 & Hp1 & H)].
  apply log_run in Hp1 as (_ & _ & Hf1 & _).
  apply bind_inv in H as [(e & _ & [=])|([] & w5 & Hsave & H)].
  apply save_examples_ok in Hsave as (Hf2 & _).
  apply bind_inv in H as [(e & _ & [=])|(res & w6 & Hev' & Hp2)].
  apply log_run in Hp2 as (_ & _ & Hf3 & _).
  unfold evaluate in Hev'.
  apply bind_inv in Hev' as [(e & _ & [=])|([] & w7 & Hl & Hev')].
  apply log_run in Hl as (_ & _ & Hf4 & _).
  apply bind_inv in Hev' as [(e & [=] & _)|(w8 & w9 & [= <- <-] & Hev')].
  inversion Hev'; subst w6.
  exists outs, records. split; [done|]. split; [done|].
  destruct Hc as (_ & Hf0 & _).
  rewrite Hf3, Hf4, Hf2, Hf1, Hfg, Hf0. done.
Qed.


Lemma dict_get_set k v d : dict_get k (dict_set k v d) = Some v.
Proof.
  induction d as [|[k' v'] d IH]; cbn [dict_set dict_get].
  - by rewrite String.eqb_refl.
  - destruct (String.eqb k' k) eqn:E; cbn [dict_get].
    + by rewrite String.eqb_refl.
    + by rewrite E.
Qed.

Lemma dict_get_set_ne k k' v d :
  k' <> k -> dict_get k' (dict_set k v d) = dict_get k' d.
Proof.
  intros Hne. induction d as [|[k0 v0] d IH]; cbn [dict_set dict_get].
  - apply String.eqb_neq in Hne. rewrite String.eqb_sym in Hne.
    by rewrite Hne.
  - destruct (String.eqb k0 k) eqn:E; cbn [dict_get].
    + apply String.eqb_eq in E as ->.
      apply String.eqb_neq in Hne. rewrite String.eqb_sym in Hne.
      by rewrite Hne.
    + by rewrite IH.
Qed.

Lemma getitem_setitem x k v x' :
  setitem x k v = Ok x' ->
  getitem x' k = Ok v /\ forall k', k' <> k -> getitem x' k' = getitem x k'.
Proof.
  destruct x; try done. cbn [setitem]. intros [= <-]. cbn [getitem]. split.
  - by rewrite dict_get_set.
  - intros k' Hne. by rewrite dict_get_set_ne.
Qed.




(** C7. In a run of the generate+evaluate flow that ends normally, with an
    extraction that sets no field outside [touched], every record of the
    output file is a loaded problem with the raw text of its output under
    [output] (unless extraction itself sets [output]); every other field
    that extraction does not set is the one of the loaded problem. *)
Theorem generate_main_record_frame args w w' (touched : list string) :
  (forall ex lang rec,
      extract_generation_code ex lang = Ok rec ->
      forall k, k ∉ touched -> getitem rec k = getitem ex k) ->
  generate_main args w = (Ok tt, w') ->
  exists src examples records,
    files w !! realpath (problem_file_of (language args)) = Some src
    /\ parse_lines src = Ok examples
    /\ files w' !! realpath (output_path args) = Some (jsonl records)
    /\ forall i rec, records !! i = Some rec ->
         exists ex tokenizer llm prompts outs o c,
           examples !! i = Some ex
           /\ from_pretrained (model_path args) = Ok tokenizer
           /\ new_LLM (llm_config args) = Ok llm
           /\ generate llm prompts (sampling_params_of tokenizer) = Ok outs
           /\ outs !! i = Some o /\ outputs o !! 0%nat = Some c
           /\ ("output" ∉ touched -> getitem rec "output" = Ok (JStr (text c)))
           /\ forall k, k <> "output" -> k ∉ touched ->
                getitem rec k = getitem ex k.
Proof.
  intros Hframe [[_ (e & [=])]|Hrun]%generate_main_run.
  destruct Hrun as (tokenizer & llm & text & examples & prompts & w1 & w2
                    & Htok & Hllm & Htext & Hparse & _ & _ & _ & _ & _ & Hok).
  destruct (Hok eq_refl) as (outs & records & Hgen & Hrec & Hfiles).
  apply collect_records in Hrec as [Hlen Hith].
  exists text, examples, records. split_and!; try done.
  { by rewrite Hfiles, lookup_insert_eq. }
  intros i rec Hi.
  destruct (lookup_lt_is_Some_2 outs i) as [o Ho].
  { rewrite <- Hlen. by eapply lookup_lt_Some. }
  destruct (Hith i o Ho) as (c & ex & ex' & rec' & Hc & Hex & Hset & Hext & Hi').
  rewrite Hi in Hi'. injection Hi' as <-.
  apply getitem_setitem in Hset as [Hout Hother].
  exists ex, tokenizer, llm, prompts, outs, o, c. split_and!; try done.
  - intros Hnot. by rewrite (Hframe _ _ _ Hext _ Hnot).
  - intros k Hk Hnot. rewrite (Hframe _ _ _ Hext _ Hnot). by apply Hother.
Qed.

(** ** The evaluate-only flow *)

#[local] Instance aside_preorder out proc : PreOrder (aside out proc).
Proof. unfold aside. apply _. Qed.

Lemma path_exists_run p w r w' :
  path_exists p w = (r, w') ->
  r = Ok (exists_in w p)
  /\ trace w' = trace w ++ [EExists p (exists_in w p)]
  /\ files w' = files w /\ dirs w' = dirs w /\ settings_kept w w'.
Proof.
  unfold path_exists.
  intros [(e & [=] & _)|(w1 & w2 & [= <- <-] & H)]%bind_inv.
  apply bind_inv in H as [(e & Hlog & _)|([] & w3 & Hlog & [= <- <-])].
  - by apply log_run in Hlog as ([=] & _).
  - apply log_run in Hlog as (_ & ? & ? & ? & ?). done.
Qed.

Lemma makedirs_run p w r w' :
  makedirs p w = (r, w') ->
  exists evs, trace w' = trace w ++ EMakedirs p :: evs
              /\ files w' = files w.
Proof.
  unfold makedirs. intros [(e & Hlog & _)|([] & w1 & Hlog & H)]%bind_inv.
  - by apply log_run in Hlog as ([=] & _).
  - apply log_run in Hlog as (_ & Ht & Hf & _).
    apply bind_inv in H as [(e & [=] & _)|(w2 & w3 & [= <- <-] & H)].
    exists []. rewrite <- Ht, <- Hf.
    repeat (destruct (_ : bool); [by inversion H|]). by inversion H.
Qed.

(** C4. In evaluate-only mode, when nothing exists at the output path the
    run stops with the assertion error whose message names the path, after
    the existence check alone: files, directories and settings are as
    before and nothing was created, opened, read or written. When something
    exists there, the assertion passes and the run goes on to create the
    temporary directory. *)
Theorem evaluation_only_requires_output args w r w' :
  evaluation_only args w = (r, w') ->
  (exists_in w (output_path args) = false ->
     r = Err (AssertionError ("Not fond output file: " +:+ output_path args))
     /\ trace w' = trace w ++ [EEnter "evaluation_only";
                               EExists (output_path args) false]
     /\ files w' = files w /\ dirs w' = dirs w /\ settings_kept w w')
  /\ (exists_in w (output_path args) = true ->
      exists evs,
        trace w' = trace w ++ [EEnter "evaluation_only";
                               EExists (output_path args) true;
                               EMakedirs (temp_dir args)] ++ evs).
Proof.
  unfold evaluation_only.
  intros [(e & Hlog & _)|([] & w1 & Hlog & H)]%bind_inv.
  { by apply log_run in Hlog as ([=] & _). }
  apply log_run in Hlog as (_ & Ht1 & Hf1 & Hd1 & Hs1).
  assert (Hsame : exists_in w1 (output_path args)
                  = exists_in w (output_path args)).
  { unfold exists_in. by rewrite Hf1, Hd1. }
  apply bind_inv in H as [(e & Hex & _)|(found & w2 & Hex & H)];
    apply path_exists_run in Hex as (Hr & Ht2 & Hf2 & Hd2 & Hs2); [done|].
  injection Hr as ->. rewrite Hsame in *.
  destruct (exists_in w (output_path args)); split; try done.
  - intros _.
    apply bind_inv in H as [(e & [=] & _)|([] & w3 & [= <-] & H)].
    apply bind_inv in H as [(e & Hmk & _)|([] & w4 & Hmk & H)].
    + apply makedirs_run in Hmk as (evs & Ht3 & _). exists evs.
      rewrite Ht3, Ht2, Ht1, <- !app_assoc. done.
    + apply makedirs_run in Hmk as (evs & Ht3 & _).
      assert (Hrest : emits (fun _ => True) w4 w').
      { revert H. generalize w4 r w'.
        match goal with
        | |- forall u s u', ?m u = (s, u') -> _ =>
            change (run_rel (emits (fun _ => True)) m)
        end.
        run_rel_with idtac. }
      destruct Hrest as (evs' & Ht4 & _). exists (evs ++ evs').
      rewrite Ht4, Ht3, Ht2, Ht1, <- !app_assoc. done.
  - intros _.
    apply bind_inv in H as [(e & [= <- <-] & ->)|(? & ? & [=] & _)].
    split_and!; try done.
    + rewrite Ht2, Ht1, <- app_assoc. done.
    + congruence.
    + congruence.
    + by etrans.
Qed.

Lemma evaluate_run a w r w' :
  evaluate a w = (r, w') ->
  r = evaluate_functional_correctness a (files w)
  /\ trace w' = trace w ++ [EEvaluate a] /\ files w' = files w.
Proof.
  unfold evaluate. intros [(e & Hlog & _)|([] & w1 & Hlog & H)]%bind_inv.
  - by apply log_run in Hlog as ([=] & _).
  - apply log_run in Hlog as (_ & Ht & Hf & _).
    apply bind_inv in H as [(e & [=] & _)|(w2 & w3 & [= <- <-] & H)].
    inversion H; subst. by rewrite Hf.
Qed.

(** A run of [evaluation_only] that ends normally. *)
Lemma evaluation_only_ok args w w' :
  evaluation_only args w = (Ok tt, w') ->
  exists src examples processed pre line,
    files w !! realpath (output_path args) = Some src
    /\ parse_lines src = Ok examples
    /\ res_mapM (fun ex => extract_generation_code ex (language args))
                examples = Ok processed
    /\ files w'
       = <[realpath (processed_path_of args) := jsonl processed]> (files w)
    /\ trace w'
       = trace w ++ pre
           ++ [EEvaluate (eval_args (processed_path_of args) args);
               EPrint line].
Proof.
  unfold evaluation_only. intros H.
  apply bind_inv in H as [(e & _ & [=])|([] & w1 & Hlog & H)].
  apply log_run in Hlog as (_ & Ht1 & Hf1 & _).
  apply bind_inv in H as [(e & _ & [=])|(found & w2 & Hex & H)].
  apply path_exists_run in Hex as (_ & Ht2 & Hf2 & _).
  apply bind_inv in H as [(e & _ & [=])|([] & w3 & Hassert & H)].
  assert (w3 = w2) as ->.
  { destruct found; by inversion Hassert. }
  apply bind_inv in H as [(e & _ & [=])|([] & w4 & Hmk & H)].
  apply makedirs_run in Hmk as (evs3 & Ht3 & Hf3).
  apply bind_inv in H as [(e & _ & [=])|(examples & w5 & Hread & H)].
  assert (Hr : emits (fun _ => True) w4 w5 /\ files w5 = files w4).
  { revert Hread. generalize w4 (Ok examples) w5.
    match goal with
    | |- forall u s u', ?m u = (s, u') -> _ =>
        change (run_rel (fun u u' => emits (fun _ => True) u u'
                                     /\ files u' = files u) m)
    end.
    apply run_rel_bind; [apply _| |intros ?].
    - unfold open_r. apply run_rel_bind; [apply _| |intros ?].
      + apply run_rel_log. intros ?. rel_leaf.
      + apply run_rel_bind; [apply _|apply run_rel_get; apply _|intros ?].
        destruct (_ !! _); [apply run_rel_ret; apply _|].
        destruct (bool_decide _); apply run_rel_raise; apply _.
    - apply run_rel_lift; apply _. }
  destruct Hr as [(evs4 & Ht4 & _) Hf4].
  apply read_examples_ok in Hread as (src & Hsrc & Hparse).
  rewrite Hf3, Hf2, Hf1 in Hsrc.
  apply bind_inv in H as [(e & _ & [=])|(processed & w6 & [= Hproc <-] & H)].
  apply bind_inv in H as [(e & _ & [=])|([] & w7 & Hsave & H)].
  apply save_examples_ok in Hsave as (Hf5 & _ & (evs5 & Ht5 & _)).
  apply bind_inv in H as [(e & _ & [=])|(res & w8 & Hev & Hprint)].
  apply evaluate_run in Hev as (_ & Ht6 & Hf6).
  apply log_run in Hprint as (_ & Ht7 & Hf7 & _).
  exists src, examples, processed.
  eexists ([_; _; _] ++ evs3 ++ evs4 ++ evs5), _.
  split_and!; try done.
  - rewrite Hf7, Hf6, Hf5, Hf4, Hf3, Hf2, Hf1. done.
  - rewrite Ht7, Ht6, Ht5, Ht4, Ht3, Ht2, Ht1, <- !app_assoc. cbn. done.
Qed.

Lemma basename_no_sep p : Path.has_sep (Path.basename p) = false.
Proof.
  induction p as [|c p IH]; [done|]. cbn [Path.basename].
  destruct (Ascii.eqb c Path.sep) eqn:Ec; [done|].
  destruct (Path.has_sep p) eqn:Hp; [done|].
  cbn [Path.has_sep]. by rewrite Ec, Hp.
Qed.

Lemma join_basename d p :
  Path.join d (Path.basename p)
  = d +:+ (if String.eqb d "" || Path.endswith_sep d then "" else "/")
      +:+ Path.basename p.
Proof.
  unfold Path.join. pose proof (basename_no_sep p) as H.
  destruct (Path.basename p) as [|c b]; cbn [Path.startswith_sep].
  - by destruct (_ || _).
  - cbn [Path.has_sep] in H. apply orb_false_iff in H as [-> _].
    destruct (_ || _); reflexivity.
Qed.

(** C10 (amended). In evaluate-only mode, when the temporary directory
    joined with the base name of the output path resolves to another file
    than the output path, the output file is read and keeps its content:
    every file the run opens for writing or writes to, and every file it
    hands to the evaluator, is that processed copy; a run that ends
    normally has written the processed records there and called the
    evaluator on it. *)
Theorem evaluation_only_writes_processed_copy args w r w' :
  realpath (processed_path_of args) <> realpath (output_path args) ->
  evaluation_only args w = (r, w') ->
  processed_path_of args
    = temp_dir args
      +:+ (if String.eqb (temp_dir args) "" || Path.endswith_sep (temp_dir args)
           then "" else "/")
      +:+ Path.basename (output_path args)
  /\ files w' !! realpath (output_path args)
     = files w !! realpath (output_path args)
  /\ (exists evs,
        trace w' = trace w ++ evs
        /\ Forall (reads_and_writes (output_path args)
                                    (processed_path_of args)) evs)
  /\ (r = Ok tt ->
      exists src examples processed pre line,
        files w !! realpath (output_path args) = Some src
        /\ parse_lines src = Ok examples
        /\ res_mapM (fun ex => extract_generation_code ex (language args))
                    examples = Ok processed
        /\ files w' !! realpath (processed_path_of args)
           = Some (jsonl processed)
        /\ trace w'
           = trace w ++ pre
               ++ [EEvaluate (eval_args (processed_path_of args) args);
                   EPrint line]).
Proof.
  intros Hne Hrun. split; [apply join_basename|].
  assert (Haside : aside (output_path args) (processed_path_of args) w w').
  { revert Hrun. generalize w r w'.
    change (run_rel (aside (output_path args) (processed_path_of args))
                    (evaluation_only args)).
    unfold evaluation_only. fold (processed_path_of args).
    run_rel_with ltac:(unfold aside). }
  destruct Haside as [Hev Hkept]. split; [exact Hkept|]. split; [exact Hev|].
  intros ->. apply evaluation_only_ok in Hrun
    as (src & examples & processed & pre & line & ? & ? & ? & Hf & ?).
  exists src, examples, processed, pre, line. split_and!; try done.
  by rewrite Hf, lookup_insert_eq.
Qed.

(** ** The entry point *)

#[local] Instance never_evaluation_only_preorder :
  PreOrder never_evaluation_only.
Proof. unfold never_evaluation_only. apply _. Qed.

#[local] Instance settings_stay_preorder : PreOrder settings_stay.
Proof. unfold settings_stay. apply _. Qed.

Lemma main_refused args w e :
  set_seed_error (seed args) = Some e ->
  exists w1, main args w = (Err e, w1)
             /\ trace w1 = trace w ++ [ESetEnv "TOKENIZERS_PARALLELISM" "false"].
Proof.
  intros He. unfold main, bind, setenv, set_seed, log, get, modify, raise.
  rewrite He. eexists. split; reflexivity.
Qed.

Lemma main_started args w :
  set_seed_error (seed args) = None ->
  main args w = generate_main args (started args w).
Proof.
  intros He.
  assert (Hseed : forall u, set_seed (seed args) u
                  = (Ok tt, with_seed (seed args)
                              (snd (log (ESetSeed (seed args)) u)))).
  { intros u. unfold set_seed. by rewrite He. }
  unfold main. unfold bind at 1.
  change (setenv "TOKENIZERS_PARALLELISM" "false" w)
    with (Ok tt, with_environ (<["TOKENIZERS_PARALLELISM" := "false"]> (environ w))
                   (snd (log (ESetEnv "TOKENIZERS_PARALLELISM" "false") w))).
  cbv iota beta. unfold bind at 1. rewrite Hseed. cbv iota beta. f_equal.
  unfold started, with_seed, with_environ, log. cbn. by rewrite <- app_assoc.
Qed.



(** C9. In every run of the entry point, an event of the tokenizer (its
    loading or a use of its chat template) comes after the two first
    events, which set the flag TOKENIZERS_PARALLELISM to false and apply
    the seed of the arguments; nothing in the run changes them afterwards. *)
Theorem main_settings_precede_tokenizer args w r w' evs i e :
  main args w = (r, w') ->
  trace w' = trace w ++ evs ->
  evs !! i = Some e ->
  is_tokenizer_event e = true ->
  evs !! 0%nat = Some (ESetEnv "TOKENIZERS_PARALLELISM" "false")
  /\ evs !! 1%nat = Some (ESetSeed (seed args))
  /\ 1 < i
  /\ environ w' !! "TOKENIZERS_PARALLELISM" = Some "false"
  /\ rng_seed w' = Some (seed args).
Proof.
  intros Hrun Hevs Hi He.
  destruct (set_seed_error (seed args)) as [x|] eqn:Hseed.
  - destruct (main_refused args w x Hseed) as (w1 & Hm & Ht).
    rewrite Hm in Hrun. injection Hrun as <- <-.
    rewrite Ht in Hevs. apply app_inv_head in Hevs as <-.
    destruct i as [|i]; [|done]. by injection Hi as <-.
  - rewrite (main_started _ _ Hseed) in Hrun.
    assert (Hstay : settings_stay (started args w) w').
    { revert Hrun. generalize (started args w) r w'.
      change (run_rel settings_stay (generate_main args)).
      unfold generate_main. run_rel_with ltac:(unfold settings_stay). }
    destruct Hstay as [(evs' & Ht & _) (Henv & Hrng & _)].
    rewrite Hevs in Ht. cbn [started trace] in Ht.
    rewrite <- app_assoc in Ht. apply app_inv_head in Ht as ->.
    split; [done|]. split; [done|]. split.
    + destruct i as [|[|i]]; [by injection Hi as <-|by injection Hi as <-|lia].
    + rewrite Henv, Hrng. cbn [started environ rng_seed].
      by rewrite lookup_insert_eq.
Qed.

(** ** Lines of a text file *)

Lemma readlines_nil s : readlines s = [] -> s = EmptyString.
Proof.
  destruct s as [|c s]; [done|]. cbn [readlines].
  destruct (Ascii.eqb c Str.LF); [done|].
  destruct (Ascii.eqb c Str.CR).
  - destruct s as [|d s]; [done|]. by destruct (Ascii.eqb d Str.LF).
  - by destruct (readlines s).
Qed.

Lemma readlines_line body rest :
  all_chars no_terminator body = true ->
  readlines (body +:+ String Str.LF rest)
  = (body +:+ String Str.LF EmptyString) :: readlines rest.
Proof.
  induction body as [|c body IH]; [done|].
  cbn [all_chars]. intros [Hc Hb]%andb_true_iff.
  apply andb_true_iff in Hc as [Hlf Hcr].
  apply negb_true_iff in Hlf, Hcr.
  change (String c body +:+ ?x) with (String c (body +:+ x)).
  cbn [readlines]. rewrite Hlf, Hcr, (IH Hb). done.
Qed.

Lemma app_cons c (s t : string) : String c s +:+ t = String c (s +:+ t).
Proof. reflexivity. Qed.

Lemma app_empty (s : string) : "" +:+ s = s.
Proof. reflexivity. Qed.



Lemma lstrip_spaces s : all_chars Str.isspace s = true -> Str.lstrip s = EmptyString.
Proof.
  induction s as [|c s IH]; [done|]. cbn [all_chars Str.lstrip].
  intros [-> Hs]%andb_true_iff. auto.
Qed.



Lemma readlines_jsonl exs :
  Forall (fun ex => all_chars no_terminator (json_dumps ex) = true) exs ->
  readlines (jsonl exs) = map line_of exs.
Proof.
  induction 1 as [|ex exs Hex _ IH]; [done|].
  cbn [jsonl fold_right map]. fold (jsonl exs).
  rewrite string_app_assoc.
  change (String Str.LF "" +:+ jsonl exs) with (String Str.LF (jsonl exs)).
  rewrite readlines_line by done. by rewrite IH.
Qed.


(** ** The extractor of the specification *)

Lemma dict_set_twice k v d : dict_set k v (dict_set k v d) = dict_set k v d.
Proof.
  induction d as [|[k' v'] d IH]; cbn [dict_set].
  - by rewrite String.eqb_refl.
  - destruct (String.eqb k' k) eqn:E; cbn [dict_set].
    + by rewrite String.eqb_refl.
    + by rewrite E, IH.
Qed.

Lemma res_mapM_ext {A B} (f g : A -> Res B) l :
  (forall x, f x = g x) -> res_mapM f l = res_mapM g l.
Proof.
  intros Hfg. induction l as [|x l IH]; [done|].
  cbn [res_mapM]. by rewrite Hfg, IH.
Qed.

Lemma extract_spec_inv strategy ex lang rec :
  extract_generation_code_spec strategy ex lang = Ok rec ->
  exists d raw stub,
    ex = JObj d
    /\ dict_get "output" d = Some (JStr raw)
    /\ dict_get "prompt" d = Some (JStr stub)
    /\ rec = JObj (dict_set "code" (JStr (strategy lang stub raw)) d).
Proof.
  unfold extract_generation_code_spec. destruct ex as [| | | | | |d]; try done.
  cbn [getitem].
  destruct (dict_get "output" d) as [out|] eqn:Hout; [|done].
  destruct (dict_get "prompt" d) as [pr|] eqn:Hpr; [|done].
  cbn [of_option res_bind].
  destruct out as [| | | |raw| |]; try done.
  destruct pr as [| | | |stub| |]; try done.
  cbn [as_str res_bind setitem]. intros [= <-]. by exists d, raw, stub.
Qed.

Lemma extract_spec_again strategy ex lang rec :
  extract_generation_code_spec strategy ex lang = Ok rec ->
  extract_generation_code_spec strategy rec lang = Ok rec.
Proof.
  intros (d & raw & stub & -> & Hout & Hpr & ->)%extract_spec_inv.
  unfold extract_generation_code_spec. cbn [getitem].
  rewrite !dict_get_set_ne by done. rewrite Hout, Hpr.
  cbn [of_option res_bind as_str setitem]. by rewrite dict_set_twice.
Qed.

Lemma extract_spec_frame strategy ex lang rec :
  extract_generation_code_spec strategy ex lang = Ok rec ->
  forall k, k ∉ ["code"] -> getitem rec k = getitem ex k.
Proof.
  intros (d & raw & stub & -> & _ & _ & ->)%extract_spec_inv k Hk.
  cbn [getitem]. rewrite dict_get_set_ne; [done|]. set_solver.
Qed.

(** C5. With the extractor of the specification, which computes the [code]
    field from the raw completion and the stub of the record, extracting an
    already extracted record returns it unchanged; hence the records of an
    already extracted output file are processed to themselves, and an
    evaluate-only run on such a file writes these same records to the
    processed copy. *)
Theorem extraction_idempotent strategy args :
  (forall lang ex rec,
      extract_generation_code_spec strategy ex lang = Ok rec ->
      extract_generation_code_spec strategy rec lang = Ok rec)
  /\ (forall lang records,
        Forall (fun rec => exists ex,
                  extract_generation_code_spec strategy ex lang = Ok rec)
               records ->
        res_mapM (fun ex => extract_generation_code_spec strategy ex lang)
                 records = Ok records)
  /\ ((forall ex lang, extract_generation_code ex lang
                       = extract_generation_code_spec strategy ex lang) ->
      forall w w' src records,
        evaluation_only args w = (Ok tt, w') ->
        files w !! realpath (output_path args) = Some src ->
        parse_lines src = Ok records ->
        Forall (fun rec => exists ex,
                  extract_generation_code_spec strategy ex (language args)
                  = Ok rec) records ->
        files w' !! realpath (processed_path_of args)
        = Some (jsonl records)).
Proof.
  assert (Hlist : forall lang records,
    Forall (fun rec => exists ex,
              extract_generation_code_spec strategy ex lang = Ok rec)
           records ->
    res_mapM (fun ex => extract_generation_code_spec strategy ex lang)
             records = Ok records).
  { intros lang records. induction 1 as [|rec records [ex Hex] _ IH]; [done|].
    cbn [res_mapM]. by rewrite (extract_spec_again _ _ _ _ Hex), IH. }
  split_and!.
  - intros lang ex rec. apply extract_spec_again.
  - exact Hlist.
  - intros Hlib w w' src records Hrun Hsrc Hparse Hdone.
    apply evaluation_only_ok in Hrun
      as (src' & examples & processed & _ & _ & Hsrc' & Hparse' & Hproc
          & Hf & _).
    rewrite Hsrc in Hsrc'. injection Hsrc' as <-.
    rewrite Hparse in Hparse'. injection Hparse' as <-.
    rewrite (res_mapM_ext _ _ _ (fun ex => Hlib ex (language args))) in Hproc.
    rewrite (Hlist _ _ Hdone) in Hproc. injection Hproc as <-.
    by rewrite Hf, lookup_insert_eq.
Qed.

(** ** More on the prompt builder *)

Lemma rstrip_cons c s :
  Str.rstrip (String c s)
  = match Str.rstrip s with
    | EmptyString =>
        if Str.isspace c then EmptyString else String c EmptyString
    | r => String c r
    end.
Proof. reflexivity. Qed.

Lemma rstrip_twice s : Str.rstrip (Str.rstrip s) = Str.rstrip s.
Proof.
  induction s as [|c s IH]; [done|]. rewrite rstrip_cons.
  destruct (Str.rstrip s) as [|d r] eqn:E.
  - destruct (Str.isspace c) eqn:Ec; [done|]. rewrite rstrip_cons.
    cbn [Str.rstrip]. by rewrite Ec.
  - by rewrite rstrip_cons, IH.
Qed.

Lemma lstrip_starts_clean s : starts_clean (Str.lstrip s) = true.
Proof.
  induction s as [|c s IH]; [done|]. cbn [Str.lstrip].
  destruct (Str.isspace c) eqn:Ec; [done|]. cbn [starts_clean]. by rewrite Ec.
Qed.

Lemma rstrip_starts_clean s :
  starts_clean s = true -> starts_clean (Str.rstrip s) = true.
Proof.
  destruct s as [|c s]; [done|]. cbn [starts_clean Str.rstrip].
  intros Hc. apply negb_true_iff in Hc.
  destruct (Str.rstrip s); rewrite ?Hc; cbn [starts_clean]; by rewrite Hc.
Qed.

Lemma lstrip_clean s : starts_clean s = true -> Str.lstrip s = s.
Proof.
  destruct s as [|c s]; [done|]. cbn [starts_clean Str.lstrip].
  intros Hc. apply negb_true_iff in Hc. by rewrite Hc.
Qed.

Lemma strip_twice s : Str.strip (Str.strip s) = Str.strip s.
Proof.
  unfold Str.strip.
  rewrite (lstrip_clean (Str.rstrip (Str.lstrip s))).
  - apply rstrip_twice.
  - apply rstrip_starts_clean, lstrip_starts_clean.
Qed.

Lemma lower_char_twice c : Str.lower_char (Str.lower_char c) = Str.lower_char c.
Proof.
  destruct c as [[] [] [] [] [] [] [] []]; vm_compute; reflexivity.
Qed.

Lemma lower_twice s : Str.lower (Str.lower s) = Str.lower s.
Proof.
  induction s as [|c s IH]; [done|]. cbn [Str.lower].
  by rewrite lower_char_twice, IH.
Qed.

(** X1. The instruction depends on the language name through its lower
    case and on the stub through its stripped text only: names that differ
    in case and stubs that differ in surrounding white space give the same
    instruction, and normalising the arguments beforehand changes nothing. *)
Theorem build_instruction_normalises (L L' Q Q' : string) :
  Str.lower L = Str.lower L' -> Str.strip Q = Str.strip Q' ->
  build_deepseekcoder_instruction L Q = build_deepseekcoder_instruction L' Q'
  /\ build_deepseekcoder_instruction (Str.lower L) (Str.strip Q)
     = build_deepseekcoder_instruction L Q.
Proof.
  intros HL HQ. unfold build_deepseekcoder_instruction.
  by rewrite HL, HQ, lower_twice, strip_twice.
Qed.

Lemma string_length_app (a b : string) :
  String.length (a +:+ b) = String.length a + String.length b.
Proof.
  induction a as [|c a IH]; [done|].
  change (S (String.length (a +:+ b)) = S (String.length a + String.length b)).
  by rewrite IH.
Qed.

Lemma string_app_inv_tail (a b s : string) : a +:+ s = b +:+ s -> a = b.
Proof.
  revert b. induction a as [|c a IH]; intros [|d b] Heq.
  - done.
  - apply (f_equal String.length) in Heq.
    rewrite !string_length_app in Heq. cbn [String.length] in Heq. lia.
  - apply (f_equal String.length) in Heq.
    rewrite !string_length_app in Heq. cbn [String.length] in Heq. lia.
  - injection Heq as -> Heq. f_equal. by apply IH.
Qed.

Lemma split_at_first_lf (a b s t : string) :
  all_chars not_lf a = true -> all_chars not_lf b = true ->
  a +:+ String Str.LF s = b +:+ String Str.LF t -> a = b /\ s = t.
Proof.
  revert b. induction a as [|c a IH]; intros [|d b] Ha Hb Heq.
  - by injection Heq as ->.
  - injection Heq as <- _. cbn [all_chars] in Hb. by vm_compute in Hb.
  - injection Heq as -> _. cbn [all_chars] in Ha. by vm_compute in Ha.
  - injection Heq as -> Heq. cbn [all_chars] in Ha, Hb.
    apply andb_true_iff in Ha as [_ Ha]. apply andb_true_iff in Hb as [_ Hb].
    destruct (IH b Ha Hb Heq) as [-> ->]. done.
Qed.

Lemma build_instruction_eq (L Q : string) :
  build_deepseekcoder_instruction L Q
  = Some (instruction_head +:+ fenced (Str.lower L) (Str.strip Q)).
Proof. reflexivity. Qed.

(** X2. When the lower-cased language names hold no line feed, equal
    instructions come from equal lower-cased names and equal stripped
    stubs: two problems whose stubs differ by more than surrounding white
    space never share a prompt. *)
Theorem build_instruction_injective (L L' Q Q' : string) :
  all_chars not_lf (Str.lower L) = true ->
  all_chars not_lf (Str.lower L') = true ->
  build_deepseekcoder_instruction L Q = build_deepseekcoder_instruction L' Q' ->
  Str.lower L = Str.lower L' /\ Str.strip Q = Str.strip Q'.
Proof.
  intros HL HL' Heq.
  rewrite !build_instruction_eq in Heq.
  injection Heq as Heq. rewrite !app_empty in Heq.
  apply split_at_first_lf in Heq as [Ht Hb]; [|done..].
  split; [done|]. by apply string_app_inv_tail in Hb.
Qed.

(** ** More on the loader *)

Lemma rstrip_empty s : Str.rstrip s = EmptyString -> all_chars Str.isspace s = true.
Proof.
  induction s as [|c s IH]; [done|]. rewrite rstrip_cons. cbn [all_chars].
  destruct (Str.rstrip s); [|done].
  destruct (Str.isspace c); [|done]. intros _. by rewrite IH.
Qed.

Lemma lstrip_spaces_inv s :
  all_chars Str.isspace (Str.lstrip s) = true -> all_chars Str.isspace s = true.
Proof.
  induction s as [|c s IH]; [done|]. cbn [Str.lstrip all_chars].
  destruct (Str.isspace c) eqn:Ec; [done|].
  cbn [all_chars]. by rewrite Ec.
Qed.

(** X3. The loaders skip a line exactly when each of its characters is
    white space (tab, line feed, vertical tab, form feed, carriage return,
    the separators 0x1c-0x1f, space, NEL, no-break space); a line with
    any other character is handed to [json.loads]. *)
Theorem loader_skips_white_lines (x : string) :
  nonblank x = false <-> all_chars Str.isspace x = true.
Proof.
  unfold nonblank. rewrite negb_false_iff, String.eqb_eq. split.
  - unfold Str.strip. intros H%rstrip_empty. by apply lstrip_spaces_inv.
  - intros H. unfold Str.strip. by rewrite lstrip_spaces.
Qed.

Lemma readlines_cons_other c s :
  Ascii.eqb c Str.LF = false -> Ascii.eqb c Str.CR = false ->
  readlines (String c s)
  = match readlines s with
    | [] => [String c EmptyString]
    | l :: ls => String c l :: ls
    end.
Proof. intros H1 H2. cbn [readlines]. by rewrite H1, H2. Qed.

Lemma concat_cons_line c l ls :
  String.concat "" (String c l :: ls) = String c (String.concat "" (l :: ls)).
Proof. destruct ls; reflexivity. Qed.

(** X4. Iterating over a text without carriage returns loses nothing: the
    lines, put together again, are the text, and no line is empty. *)
Theorem readlines_partition (text : string) :
  all_chars not_cr text = true ->
  String.concat "" (readlines text) = text
  /\ Forall (fun l => l <> EmptyString) (readlines text).
Proof.
  induction text as [|c text IH]; [by split; [|constructor]|].
  cbn [all_chars]. intros [Hc Ht]%andb_true_iff.
  apply negb_true_iff in Hc. destruct (IH Ht) as [IH1 IH2].
  destruct (Ascii.eqb c Str.LF) eqn:Elf.
  - apply Ascii.eqb_eq in Elf as ->. cbn [readlines]. split.
    + destruct (readlines text) eqn:E.
      * apply readlines_nil in E as ->. done.
      * rewrite <- IH1. reflexivity.
    + by constructor.
  - rewrite readlines_cons_other by done.
    destruct (readlines text) as [|l ls] eqn:E.
    + apply readlines_nil in E as ->. split; [done|]. by repeat constructor.
    + split.
      * rewrite concat_cons_line. by rewrite IH1.
      * inversion IH2; subst. by constructor.
Qed.

(** ** More on paths *)

Lemma basename_without_sep b : Path.has_sep b = false -> Path.basename b = b.
Proof.
  destruct b as [|c b]; [done|]. cbn [Path.has_sep Path.basename].
  intros [-> ->]%orb_false_iff. done.
Qed.

Lemma has_sep_app a b : Path.has_sep (a +:+ String Path.sep b) = true.
Proof.
  induction a as [|c a IH]; [done|]. rewrite app_cons. cbn [Path.has_sep].
  rewrite IH. apply orb_true_r.
Qed.

Lemma basename_after_sep a b :
  Path.has_sep b = false -> Path.basename (a +:+ String Path.sep b) = b.
Proof.
  intros Hb. induction a as [|c a IH].
  - rewrite app_empty.
    change (Path.basename (String Path.sep b)) with (Path.basename b).
    by apply basename_without_sep.
  - rewrite app_cons. cbn [Path.basename]. rewrite has_sep_app, IH.
    by destruct (Ascii.eqb c _).
Qed.

Lemma endswith_sep_inv d :
  Path.endswith_sep d = true -> exists d', d = d' +:+ String Path.sep EmptyString.
Proof.
  induction d as [|c d IH]; [done|]. cbn [Path.endswith_sep].
  destruct d as [|c' d].
  - intros ->%Ascii.eqb_eq. by exists EmptyString.
  - intros (d' & ->)%IH. by exists (String c d').
Qed.

(** X5. [os.path.basename] undoes [os.path.join] on a name without
    separator, so the processed copy of evaluate-only mode carries the file
    name of the output file. *)
Theorem processed_copy_keeps_name (args : Args) :
  (forall d b, Path.has_sep b = false -> Path.basename (Path.join d b) = b)
  /\ Path.basename (processed_path_of args)
     = Path.basename (output_path args).
Proof.
  assert (Hjoin : forall d b,
            Path.has_sep b = false -> Path.basename (Path.join d b) = b).
  { intros d b Hb. unfold Path.join.
    assert (Path.startswith_sep b = false) as ->.
    { destruct b as [|c b]; [done|]. cbn [Path.has_sep] in Hb.
      cbn [Path.startswith_sep]. by apply orb_false_iff in Hb as [-> _]. }
    destruct (String.eqb d "") eqn:Ed.
    - apply String.eqb_eq in Ed as ->. cbn [orb].
      rewrite app_empty. by apply basename_without_sep.
    - cbn [orb]. destruct (Path.endswith_sep d) eqn:Es.
      + apply endswith_sep_inv in Es as (d' & ->).
        rewrite string_app_assoc. change (String Path.sep "" +:+ b)
          with (String Path.sep b). by apply basename_after_sep.
      + by apply basename_after_sep. }
  split; [exact Hjoin|]. unfold processed_path_of.
  apply Hjoin, basename_no_sep.
Qed.

(** ** More on the two loops of [generate_main] *)

(** X6. The instruction of an example is built exactly when the language
    has a setting with a [str] [full_name] and the example is a dict with a
    [str] [prompt]; it is then the instruction of that name and that stub.
    Otherwise the loop body raises [KeyError] for the missing key,
    [TypeError] for a setting or an example that is not a dict, or
    [AttributeError] for a name or a prompt that is not a [str]. *)
Theorem instruction_of_cases (lang : string) (example : json) :
  (forall p,
      instruction_of lang example = Ok p <->
      exists setting name fields stub,
        dict_get lang languge_settings = Some (JObj setting)
        /\ dict_get "full_name" setting = Some (JStr name)
        /\ example = JObj fields
        /\ dict_get "prompt" fields = Some (JStr stub)
        /\ p = instruction_head +:+ fenced (Str.lower name) (Str.strip stub))
  /\ (forall e,
        instruction_of lang example = Err e ->
        e = KeyError lang \/ e = KeyError "full_name" \/ e = KeyError "prompt"
        \/ e = TypeError \/ e = AttributeError).
Proof.
  unfold instruction_of. cbn [getitem]. split.
  - intros p. split.
    + destruct (dict_get lang languge_settings) as [setting|] eqn:Hs; [|done].
      cbn [of_option res_bind].
      destruct setting as [| | | | | |setting]; try done. cbn [getitem].
      destruct (dict_get "full_name" setting) as [name|] eqn:Hn; [|done].
      cbn [of_option res_bind].
      destruct example as [| | | | | |fields]; try done. cbn [getitem].
      destruct (dict_get "prompt" fields) as [stub|] eqn:Hp; [|done].
      cbn [of_option res_bind].
      destruct name as [| | | |name| |]; try done.
      destruct stub as [| | | |stub| |]; try done.
      cbn [as_str res_bind].
      rewrite build_instruction_eq.
      cbn [of_option]. intros [= <-]. by exists setting, name, fields, stub.
    + intros (setting & name & fields & stub & -> & Hn & -> & Hp & ->).
      cbn [of_option res_bind getitem]. rewrite Hn, Hp.
      cbn [of_option res_bind as_str].
      by rewrite build_instruction_eq.
  - intros e.
    destruct (dict_get lang languge_settings) as [setting|]; cbn [of_option res_bind];
      [|intros [= <-]; auto].
    destruct setting as [| | | | | |setting]; cbn [getitem];
      try (intros [= <-]; tauto).
    destruct (dict_get "full_name" setting) as [name|]; cbn [of_option res_bind];
      [|intros [= <-]; auto].
    destruct example as [| | | | | |fields]; cbn [getitem];
      try (intros [= <-]; tauto).
    destruct (dict_get "prompt" fields) as [stub|]; cbn [of_option res_bind];
      [|intros [= <-]; auto].
    destruct name as [| | | |name| |]; cbn [as_str res_bind];
      try (intros [= <-]; tauto).
    destruct stub as [| | | |stub| |]; cbn [as_str res_bind];
      try (intros [= <-]; tauto).
Qed.

(** X7. The second loop goes through when the engine returned no more
    outputs than there are examples and every output has a completion; it
    then yields one record per output, so problems beyond the last output
    are left out without an error.  With more outputs than examples it
    raises. *)
Theorem collect_loop_bounds (examples : list json) (lang : string)
    (outs : list RequestOutput) :
  (forall records,
      res_mapM (collect examples lang) (enumerate outs) = Ok records ->
      length records = length outs
      /\ length outs <= length examples
      /\ Forall (fun o => outputs o <> []) outs)
  /\ (length examples < length outs ->
      exists e, res_mapM (collect examples lang) (enumerate outs) = Err e).
Proof.
  assert (Hok : forall records,
    res_mapM (collect examples lang) (enumerate outs) = Ok records ->
    length records = length outs
    /\ length outs <= length examples
    /\ Forall (fun o => outputs o <> []) outs).
  { intros records [Hlen Hith]%collect_records. split; [done|]. split.
    - destruct outs as [|o0 outs'] eqn:E using rev_ind; [cbn; lia|].
      rewrite length_app. cbn.
      destruct (Hith (length outs') o0) as (_ & ex & _ & _ & _ & Hex & _).
      { by rewrite lookup_app_r, Nat.sub_diag. }
      apply lookup_lt_Some in Hex. lia.
    - apply Forall_lookup. intros i o Ho.
      destruct (Hith i o Ho) as (c & _ & _ & _ & Hc & _).
      intros Hnil. by rewrite Hnil in Hc. }
  split; [exact Hok|]. intros Hlt.
  destruct (res_mapM (collect examples lang) (enumerate outs)) as [records|e]
    eqn:E; [|by exists e].
  destruct (Hok _ eq_refl) as (_ & ? & _). lia.
Qed.

(** ** More on the writer and the loader *)

Lemma read_examples_run path w r w' src :
  read_examples path w = (r, w') ->
  files w !! realpath path = Some src ->
  r = parse_lines src.
Proof.
  intros Hrun Hsrc. destruct r as [examples|e].
  - apply read_examples_ok in Hrun as (src' & Hsrc' & Hparse). congruence.
  - unfold read_examples in Hrun.
    apply bind_inv in Hrun as [(e' & Hopen & [= <-])|(t & w1 & Hopen & H)].
    + unfold open_r in Hopen.
      apply bind_inv in Hopen as [(e' & Hlog & _)|([] & w2 & Hlog & Hopen)].
      { by apply log_run in Hlog as ([=] & _). }
      apply log_run in Hlog as (_ & _ & Hf & _).
      apply bind_inv in Hopen as [(e' & [=] & _)|(w3 & w4 & [= <- <-] & Hopen)].
      by rewrite Hf, Hsrc in Hopen.
    + assert (Ht : files w !! realpath path = Some t).
      { unfold open_r in Hopen.
        apply bind_inv in Hopen as [(e' & _ & [=])|([] & w2 & Hlog & Hopen)].
        apply log_run in Hlog as (_ & _ & Hf & _).
        apply bind_inv in Hopen as [(e' & [=] & _)|(w3 & w4 & [= <- <-] & Hopen)].
        rewrite Hf in Hopen.
        destruct (files w !! realpath path); [by inversion Hopen|].
        by destruct (bool_decide _). }
      rewrite Hsrc in Ht. injection Ht as <-. by inversion H.
Qed.

Lemma parse_lines_jsonl exs :
  Forall (fun ex => all_chars no_terminator (json_dumps ex) = true
                    /\ nonblank (line_of ex) = true
                    /\ json_loads (line_of ex) = Some ex) exs ->
  parse_lines (jsonl exs) = Ok exs.
Proof.
  intros Hcodec. unfold parse_lines. rewrite readlines_jsonl.
  - induction Hcodec as [|ex exs (_ & Hnb & Hl) _ IH]; [done|].
    cbn [map List.filter]. rewrite Hnb. cbn [res_mapM]. rewrite Hl.
    cbn [of_option res_bind]. by rewrite IH.
  - eapply Forall_impl; [exact Hcodec|]. by intros ex (? & _).
Qed.

(** X8. What the writer writes the loader reads back: when the
    [json.dumps] text of each record holds no line terminator, is not
    blank and is parsed back to the record by [json.loads], loading a file
    just saved returns the saved records, in order. *)
Theorem saved_examples_load_back (path : string) (exs : list json) w w' r w'' :
  Forall (fun ex => all_chars no_terminator (json_dumps ex) = true
                    /\ nonblank (line_of ex) = true
                    /\ json_loads (line_of ex) = Some ex) exs ->
  save_examples path exs w = (Ok tt, w') ->
  read_examples path w' = (r, w'') ->
  parse_lines (jsonl exs) = Ok exs /\ r = Ok exs.
Proof.
  intros Hcodec Hsave Hread.
  pose proof (parse_lines_jsonl _ Hcodec) as Hparse.
  split; [done|].
  apply save_examples_ok in Hsave as (Hf & _).
  rewrite (read_examples_run path w' r w'' (jsonl exs) Hread);
    [exact Hparse|]. by rewrite Hf, lookup_insert_eq.
Qed.

(** ** What the flows leave alone *)

#[local] Instance touches_only_preorder out temp :
  PreOrder (touches_only out temp).
Proof.
  split.
  - intros w. split_and!; [done|done| |done].
    intros d Hd. apply elem_of_union. by left.
  - intros w1 w2 w3 (Hf1 & Ha1 & Hb1 & Hs1) (Hf2 & Ha2 & Hb2 & Hs2).
    split_and!.
    + intros q Hq. by rewrite Hf2, Hf1.
    + by etrans.
    + intros d [Hd| ->%elem_of_singleton]%Hb2%elem_of_union.
      * by apply Hb1.
      * apply elem_of_union. right. by apply elem_of_singleton.
    + by etrans.
Qed.

#[local] Instance model_free_preorder : PreOrder model_free.
Proof. unfold model_free. apply _. Qed.






(** ** Edge cases of the flows *)

(** X11. With a problem file that holds no problem (empty, or blank lines
    only), a run of [generate_main] that ends normally has called the
    engine with an empty list of prompts and left an empty output file;
    [languge_settings] is not consulted, so this holds for a language it
    does not know. *)
Theorem generate_main_without_problems args w w' src :
  generate_main args w = (Ok tt, w') ->
  files w !! realpath (problem_file_of (language args)) = Some src ->
  parse_lines src = Ok [] ->
  files w' !! realpath (output_path args) = Some EmptyString
  /\ exists tokenizer,
       from_pretrained (model_path args) = Ok tokenizer
       /\ EGenerate [] (sampling_params_of tokenizer) ∈ trace w'.
Proof.
  intros [[_ (e & [=])]|Hrun]%generate_main_run Hsrc Hparse.
  destruct Hrun as (tokenizer & llm & src' & examples & prompts & w1 & w2
                    & Htok & _ & Hsrc' & Hparse' & Hprompts & _ & Hgen
                    & (evs & Hevs & _) & _ & Hok).
  rewrite Hsrc in Hsrc'. injection Hsrc' as <-.
  rewrite Hparse in Hparse'. injection Hparse' as <-.
  injection Hprompts as <-.
  destruct (Hok eq_refl) as (outs & records & _ & Hrec & Hf).
  apply collect_records in Hrec as [Hlen Hith].
  assert (outs = []) as ->.
  { destruct outs as [|o outs]; [done|].
    by destruct (Hith 0 o eq_refl) as (_ & ex & _ & _ & _ & ? & _). }
  destruct records; [|done]. split.
  - by rewrite Hf, lookup_insert_eq.
  - exists tokenizer. split; [done|]. rewrite Hevs, Hgen.
    apply elem_of_app. left. apply elem_of_app. right. by apply list_elem_of_singleton.
Qed.

(** X12. Evaluate-only mode on a file as the writer leaves it: when the
    output file holds the lines of [records], whose [json.dumps] text
    holds no line terminator, is not blank and is parsed back by
    [json.loads], a run that ends normally has extracted exactly these
    records, in order, and written the results to the processed copy. *)
Theorem evaluation_only_processes_written args w w' (records : list json) :
  files w !! realpath (output_path args) = Some (jsonl records) ->
  Forall (fun ex => all_chars no_terminator (json_dumps ex) = true
                    /\ nonblank (line_of ex) = true
                    /\ json_loads (line_of ex) = Some ex) records ->
  evaluation_only args w = (Ok tt, w') ->
  exists processed,
    Forall2 (fun ex rec =>
               extract_generation_code ex (language args) = Ok rec)
            records processed
    /\ files w' !! realpath (processed_path_of args) = Some (jsonl processed).
Proof.
  intros Hfile Hcodec Hrun.
  apply evaluation_only_ok in Hrun
    as (src & examples & processed & _ & _ & Hsrc & Hparse & Hproc & Hf & _).
  rewrite Hfile in Hsrc. injection Hsrc as <-.
  rewrite (parse_lines_jsonl _ Hcodec) in Hparse. injection Hparse as <-.
  exists processed. split.
  - by apply res_mapM_Forall2 in Hproc.
  - by rewrite Hf, lookup_insert_eq.
Qed.

(** ** Where the flows stop *)

Lemma bind_ok {A B} (m : M A) (k : A -> M B) w a w1 :
  m w = (Ok a, w1) -> bind m k w = k a w1.
Proof. intros Hm. unfold bind. by rewrite Hm. Qed.

Lemma bind_err {A B} (m : M A) (k : A -> M B) w e w1 :
  m w = (Err e, w1) -> bind m k w = (Err e, w1).
Proof. intros Hm. unfold bind. by rewrite Hm. Qed.

Lemma log_eq e w : log e w = (Ok tt, logged e w).
Proof. reflexivity. Qed.

Lemma makedirs_existing p w :
  p <> EmptyString -> realpath p ∈ dirs w ->
  makedirs p w = (Ok tt, logged (EMakedirs p) w).
Proof.
  intros Hp Hd. unfold makedirs, bind. rewrite log_eq. cbn [get].
  apply String.eqb_neq in Hp. rewrite Hp.
  by rewrite (bool_decide_eq_true_2 _ Hd).
Qed.

Lemma load_tokenizer_eq name w :
  load_tokenizer name w = (from_pretrained name, logged (ETokenizerLoad name) w).
Proof. reflexivity. Qed.

Lemma init_llm_eq cfg w :
  init_llm cfg w = (new_LLM cfg, logged (ELLMInit cfg) w).
Proof. reflexivity. Qed.

Lemma read_examples_eq path w :
  read_examples path w
  = (match files w !! realpath path with
     | Some src => parse_lines src
     | None => if bool_decide (realpath path ∈ dirs w)
               then Err (IsADirectoryError path)
               else Err (FileNotFoundError path)
     end, logged (EOpenRead path) w).
Proof.
  unfold read_examples, open_r, bind. rewrite log_eq. cbn [get].
  change (files (logged (EOpenRead path) w)) with (files w).
  change (dirs (logged (EOpenRead path) w)) with (dirs w).
  destruct (files w !! realpath path); [done|]. by destruct (bool_decide _).
Qed.

(** The steps of [generate_main] up to the loading of the problem file,
    when the temporary directory exists and the model loads. *)
Lemma generate_main_loads args w tokenizer llm :
  temp_dir args <> EmptyString ->
  realpath (temp_dir args) ∈ dirs w ->
  from_pretrained (model_path args) = Ok tokenizer ->
  new_LLM (llm_config args) = Ok llm ->
  exists w1,
    generate_main args w
    = (examples <- read_examples (problem_file_of (language args)) ;;
       print ("Read " +:+ pretty (length examples)
              +:+ " examples for evaluation over.") ;;
       messages_list <- forM (render tokenizer (language args)) examples ;;
       outputs <- llm_generate llm messages_list (sampling_params_of tokenizer) ;;
       generated_examples <-
         lift (res_mapM (collect examples (language args)) (enumerate outputs)) ;;
       print "Generate all over!!!" ;;
       save_examples (output_path args) generated_examples ;;
       result <- evaluate (eval_args (output_path args) args) ;;
       print (language args +:+ " " +:+ result +:+ " " +:+ model_path args)) w1
    /\ trace w1
       = trace w ++ [EEnter "generate_main"; EMakedirs (temp_dir args);
                     EPrint ("model " +:+ model_path args);
                     ETokenizerLoad (model_path args);
                     EPrint ("load tokenizer " +:+ tok_class tokenizer
                             +:+ " from " +:+ model_path args +:+ " over.");
                     ELLMInit (llm_config args)]
    /\ files w1 = files w /\ dirs w1 = dirs w.
Proof.
  intros Hne Hdir Htok Hllm. eexists. split.
  - unfold generate_main.
    erewrite bind_ok; [|apply log_eq].
    erewrite bind_ok; [|by apply makedirs_existing].
    erewrite bind_ok; [|apply log_eq].
    erewrite bind_ok; [|rewrite load_tokenizer_eq, Htok; reflexivity].
    erewrite bind_ok; [|apply log_eq].
    erewrite bind_ok; [|rewrite init_llm_eq, Hllm; reflexivity].
    reflexivity.
  - cbn. by rewrite <- !app_assoc.
Qed.

(** X13. When the temporary directory exists and the tokenizer and the
    engine load, a missing problem file stops [generate_main] with
    [FileNotFoundError] for that file: the model has been loaded by then,
    and nothing is rendered, generated or written. *)
Theorem generate_main_missing_problem_file args w tokenizer llm :
  temp_dir args <> EmptyString ->
  realpath (temp_dir args) ∈ dirs w ->
  from_pretrained (model_path args) = Ok tokenizer ->
  new_LLM (llm_config args) = Ok llm ->
  files w !! realpath (problem_file_of (language args)) = None ->
  realpath (problem_file_of (language args)) ∉ dirs w ->
  exists w',
    generate_main args w
    = (Err (FileNotFoundError (problem_file_of (language args))), w')
    /\ trace w'
       = trace w ++ [EEnter "generate_main"; EMakedirs (temp_dir args);
                     EPrint ("model " +:+ model_path args);
                     ETokenizerLoad (model_path args);
                     EPrint ("load tokenizer " +:+ tok_class tokenizer
                             +:+ " from " +:+ model_path args +:+ " over.");
                     ELLMInit (llm_config args);
                     EOpenRead (problem_file_of (language args))]
    /\ files w' = files w /\ dirs w' = dirs w.
Proof.
  intros Hne Hdir Htok Hllm Hnone Hnd.
  destruct (generate_main_loads args w tokenizer llm Hne Hdir Htok Hllm)
    as (w1 & -> & Ht & Hf & Hd).
  eexists. split.
  - erewrite bind_err; [reflexivity|].
    rewrite read_examples_eq, Hf, Hnone, Hd.
    by rewrite (bool_decide_eq_false_2 _ Hnd).
  - cbn. rewrite Ht, <- !app_assoc. done.
Qed.

(** X14. When the temporary directory exists, the model loads and the
    problem file holds at least one problem, a language without an entry
    in [languge_settings] stops [generate_main] with [KeyError] for that
    language at the first example, before the chat template is applied
    and before the engine is called; no file is written. *)
Theorem generate_main_unknown_language args w tokenizer llm src ex exs :
  temp_dir args <> EmptyString ->
  realpath (temp_dir args) ∈ dirs w ->
  from_pretrained (model_path args) = Ok tokenizer ->
  new_LLM (llm_config args) = Ok llm ->
  files w !! realpath (problem_file_of (language args)) = Some src ->
  parse_lines src = Ok (ex :: exs) ->
  dict_get (language args) languge_settings = None ->
  exists w',
    generate_main args w = (Err (KeyError (language args)), w')
    /\ trace w'
       = trace w ++ [EEnter "generate_main"; EMakedirs (temp_dir args);
                     EPrint ("model " +:+ model_path args);
                     ETokenizerLoad (model_path args);
                     EPrint ("load tokenizer " +:+ tok_class tokenizer
                             +:+ " from " +:+ model_path args +:+ " over.");
                     ELLMInit (llm_config args);
                     EOpenRead (problem_file_of (language args));
                     EPrint ("Read " +:+ pretty (S (length exs))
                             +:+ " examples for evaluation over.")]
    /\ files w' = files w /\ dirs w' = dirs w.
Proof.
  intros Hne Hdir Htok Hllm Hsrc Hparse Hlang.
  destruct (generate_main_loads args w tokenizer llm Hne Hdir Htok Hllm)
    as (w1 & -> & Ht & Hf & Hd).
  eexists. split.
  - erewrite bind_ok; [|rewrite read_examples_eq, Hf, Hsrc, Hparse; reflexivity].
    erewrite bind_ok; [|apply log_eq].
    erewrite bind_err; [reflexivity|].
    cbn [forM]. erewrite bind_err; [reflexivity|].
    unfold render. erewrite bind_err; [reflexivity|].
    unfold lift, instruction_of. cbn [getitem]. by rewrite Hlang.
  - cbn. rewrite Ht, <- !app_assoc. done.
Qed.

(** X15. A directory at the output path passes the existence assertion of
    [evaluation_only]; the run (the temporary directory existing) then
    stops with [IsADirectoryError] when it opens the path, having written
    nothing. *)
Theorem evaluation_only_output_is_directory args w :
  temp_dir args <> EmptyString ->
  realpath (temp_dir args) ∈ dirs w ->
  realpath (output_path args) ∈ dirs w ->
  files w !! realpath (output_path args) = None ->
  exists w',
    evaluation_only args w = (Err (IsADirectoryError (output_path args)), w')
    /\ trace w'
       = trace w ++ [EEnter "evaluation_only";
                     EExists (output_path args) true;
                     EMakedirs (temp_dir args);
                     EOpenRead (output_path args)]
    /\ files w' = files w /\ dirs w' = dirs w.
Proof.
  intros Hne Hdir Hout Hnone. eexists. split.
  - unfold evaluation_only.
    erewrite bind_ok; [|apply log_eq].
    erewrite bind_ok.
    2:{ unfold path_exists, bind. cbn [get]. rewrite log_eq. reflexivity. }
    change (dirs (logged (EEnter "evaluation_only") w)) with (dirs w).
    rewrite (bool_decide_eq_true_2 _ Hout), orb_true_r.
    erewrite bind_ok; [|reflexivity].
    erewrite bind_ok; [|by apply makedirs_existing].
    erewrite bind_err; [reflexivity|].
    rewrite read_examples_eq. cbn [logged log snd files dirs].
    by rewrite Hnone, (bool_decide_eq_true_2 _ Hout).
  - cbn. by rewrite <- !app_assoc.
Qed.

(** ** When the evaluator runs *)

#[local] Instance before_evaluation_preorder : PreOrder before_evaluation.
Proof. unfold before_evaluation. apply _. Qed.




(** ** The fields of a record *)

Lemma dict_set_keys k v d :
  map fst (dict_set k v d)
  = if bool_decide (k ∈ map fst d) then map fst d else map fst d ++ [k].
Proof.
  induction d as [|[k' v'] d IH]; [done|]. cbn [dict_set map fst].
  destruct (String.eqb k' k) eqn:E.
  - apply String.eqb_eq in E as ->. cbn [map fst].
    rewrite bool_decide_eq_true_2; [done|]. apply elem_of_cons. by left.
  - apply String.eqb_neq in E. cbn [map fst]. rewrite IH.
    destruct (bool_decide (k ∈ map fst d)) eqn:Hin.
    + apply bool_decide_eq_true in Hin.
      rewrite bool_decide_eq_true_2; [done|]. apply elem_of_cons. by right.
    + apply bool_decide_eq_false in Hin.
      rewrite bool_decide_eq_false_2; [done|].
      intros [?|?]%elem_of_cons; [congruence|done].
Qed.

(** X17. Setting [output] on a loaded example (line 76) keeps its fields in
    their order: a field of that name is replaced where it stands, else
    the field is added last; the other values are untouched and no key
    comes twice if none did. *)
Theorem setitem_keeps_fields (x : json) (k : string) (v : json) (x' : json) :
  setitem x k v = Ok x' ->
  exists d d',
    x = JObj d /\ x' = JObj d'
    /\ map fst d'
       = (if bool_decide (k ∈ map fst d) then map fst d else map fst d ++ [k])
    /\ dict_get k d' = Some v
    /\ (forall k', k' <> k -> dict_get k' d' = dict_get k' d)
    /\ (NoDup (map fst d) -> NoDup (map fst d')).
Proof.
  destruct x as [| | | | | |d]; try done. cbn [setitem]. intros [= <-].
  exists d, (dict_set k v d). split_and!; try done.
  - apply dict_set_keys.
  - apply dict_get_set.
  - intros k' Hk. by apply dict_get_set_ne.
  - intros Hnd. rewrite dict_set_keys.
    destruct (bool_decide (k ∈ map fst d)) eqn:Hin; [done|].
    apply bool_decide_eq_false in Hin. apply NoDup_app. split_and!; [done| |].
    + intros y Hy ->%list_elem_of_singleton. done.
    + apply NoDup_singleton.
Qed.

End Proofs.

(** * The properties on the stub installation *)

#[local] Existing Instance Stub.libs.

Lemma build_instruction_one_block_witness :
  Str.no_backtick (Str.lower "Python") = true
  /\ Str.no_backtick (Str.strip "def f():") = true
  /\ Str.fences (instruction_head
                 +:+ fenced (Str.lower "Python") (Str.strip "def f():"))
     = 2.
Proof.
  split; [reflexivity|]. split; [reflexivity|].
  exact (proj2 (proj2 (proj2
           (build_instruction_one_block "Python" "def f():")))
           eq_refl eq_refl).
Defined.

(** C1 as stated fails: a stub that starts with white space is not a
    substring of its instruction. *)
Lemma build_instruction_strips_stub :
  exists r,
    build_deepseekcoder_instruction "Python" "  return 1" = Some r
    /\ Str.is_infix "  return 1" r = false.
Proof. eexists. split; [reflexivity|]. by vm_compute. Qed.




Lemma evaluation_only_requires_output_witness :
  (exists_in Stub.world0 (output_path Stub.args0) = false ->
     fst Stub.too_early
     = Err (AssertionError
              ("Not fond output file: " +:+ output_path Stub.args0))
     /\ trace (snd Stub.too_early)
        = trace Stub.world0 ++ [EEnter "evaluation_only";
                                EExists (output_path Stub.args0) false]
     /\ files (snd Stub.too_early) = files Stub.world0
     /\ dirs (snd Stub.too_early) = dirs Stub.world0
     /\ settings_kept Stub.world0 (snd Stub.too_early))
  /\ (exists_in Stub.world0 (output_path Stub.args0) = true ->
      exists evs,
        trace (snd Stub.too_early)
        = trace Stub.world0 ++ [EEnter "evaluation_only";
                                EExists (output_path Stub.args0) true;
                                EMakedirs (temp_dir Stub.args0)] ++ evs).
Proof.
  apply (evaluation_only_requires_output Stub.args0 Stub.world0).
  by vm_compute.
Defined.

Lemma extraction_idempotent_witness :
  extract_generation_code_spec Stub.strategy
    (Stub.with_output Stub.problem0) "python"
  = Ok (Stub.record_of Stub.problem0)
  /\ extract_generation_code_spec Stub.strategy
       (Stub.record_of Stub.problem0) "python"
     = Ok (Stub.record_of Stub.problem0).
Proof.
  split; [by vm_compute|].
  apply (proj1 (extraction_idempotent Stub.strategy Stub.args0)
           "python" (Stub.with_output Stub.problem0)).
  by vm_compute.
Defined.


Lemma stub_extract_frame ex lang rec :
  extract_generation_code ex lang = Ok rec ->
  forall k, k ∉ ["code"] -> getitem rec k = getitem ex k.
Proof. apply extract_spec_frame. Qed.

Lemma generate_main_record_frame_witness :
  exists src examples records,
    files Stub.world0 !! realpath (problem_file_of (language Stub.args0))
      = Some src
    /\ parse_lines src = Ok examples
    /\ files (snd Stub.generated) !! realpath (output_path Stub.args0)
       = Some (jsonl records)
    /\ forall i rec, records !! i = Some rec ->
         exists ex tokenizer llm prompts outs o c,
           examples !! i = Some ex
           /\ from_pretrained (model_path Stub.args0) = Ok tokenizer
           /\ new_LLM (llm_config Stub.args0) = Ok llm
           /\ generate llm prompts (sampling_params_of tokenizer) = Ok outs
           /\ outs !! i = Some o /\ outputs o !! 0%nat = Some c
           /\ ("output" ∉ ["code"] ->
               getitem rec "output" = Ok (JStr (text c)))
           /\ forall k, k <> "output" -> k ∉ ["code"] ->
                getitem rec k = getitem ex k.
Proof.
  apply (generate_main_record_frame Stub.args0 Stub.world0
           (snd Stub.generated) ["code"]).
  - apply stub_extract_frame.
  - by vm_compute.
Defined.


Lemma main_settings_precede_tokenizer_witness :
  trace (snd Stub.entered) !! 5%nat = Some (ETokenizerLoad "stub-model")
  /\ trace (snd Stub.entered) !! 0%nat
     = Some (ESetEnv "TOKENIZERS_PARALLELISM" "false")
  /\ trace (snd Stub.entered) !! 1%nat = Some (ESetSeed (seed Stub.args0))
  /\ 1 < 5
  /\ environ (snd Stub.entered) !! "TOKENIZERS_PARALLELISM" = Some "false"
  /\ rng_seed (snd Stub.entered) = Some (seed Stub.args0).
Proof.
  split; [by vm_compute|].
  apply (main_settings_precede_tokenizer Stub.args0 Stub.world0
           (fst Stub.entered) (snd Stub.entered) (trace (snd Stub.entered))
           5 (ETokenizerLoad "stub-model")); by vm_compute.
Defined.

Lemma evaluation_only_writes_processed_copy_witness :
  processed_path_of Stub.args0
    = temp_dir Stub.args0
      +:+ (if String.eqb (temp_dir Stub.args0) ""
              || Path.endswith_sep (temp_dir Stub.args0)
           then "" else "/")
      +:+ Path.basename (output_path Stub.args0)
  /\ files (snd Stub.reevaluated) !! realpath (output_path Stub.args0)
     = files (snd Stub.generated) !! realpath (output_path Stub.args0)
  /\ (exists evs,
        trace (snd Stub.reevaluated) = trace (snd Stub.generated) ++ evs
        /\ Forall (reads_and_writes (output_path Stub.args0)
                                    (processed_path_of Stub.args0)) evs)
  /\ (fst Stub.reevaluated = Ok tt ->
      exists src examples processed pre line,
        files (snd Stub.generated) !! realpath (output_path Stub.args0)
          = Some src
        /\ parse_lines src = Ok examples
        /\ res_mapM (fun ex =>
                       extract_generation_code ex (language Stub.args0))
                    examples = Ok processed
        /\ files (snd Stub.reevaluated)
             !! realpath (processed_path_of Stub.args0)
           = Some (jsonl processed)
        /\ trace (snd Stub.reevaluated)
           = trace (snd Stub.generated) ++ pre
               ++ [EEvaluate (eval_args (processed_path_of Stub.args0)
                                        Stub.args0);
                   EPrint line]).
Proof.
  apply (evaluation_only_writes_processed_copy Stub.args0
           (snd Stub.generated)); by vm_compute.
Defined.

(** C10 as stated fails: with the output file inside the temporary
    directory the processed copy is the output file itself, which the run
    opens for writing, rewrites and hands to the evaluator. *)
Lemma evaluation_only_overwrites_output :
  processed_path_of Stub.args_same = output_path Stub.args_same
  /\ fst Stub.overwritten = Ok tt
  /\ EOpenWrite (output_path Stub.args_same) ∈ trace (snd Stub.overwritten)
  /\ EEvaluate (eval_args (output_path Stub.args_same) Stub.args_same)
     ∈ trace (snd Stub.overwritten)
  /\ files (snd Stub.overwritten) !! realpath (output_path Stub.args_same)
     <> files Stub.world_same !! realpath (output_path Stub.args_same).
Proof.
  split_and!; try by vm_compute.
  - vm_compute. set_solver.
  - vm_compute. set_solver.
Qed.

(** ** The further properties on the stub installation *)

Lemma build_instruction_normalises_witness :
  build_deepseekcoder_instruction "Python" "  return 1  "
  = build_deepseekcoder_instruction "PYTHON" "return 1"
  /\ build_deepseekcoder_instruction (Str.lower "Python")
       (Str.strip "  return 1  ")
     = build_deepseekcoder_instruction "Python" "  return 1  ".
Proof.
  apply (build_instruction_normalises "Python" "PYTHON"
           "  return 1  " "return 1"); reflexivity.
Defined.

Lemma build_instruction_injective_witness :
  Str.lower "Python" = Str.lower "python"
  /\ Str.strip "return 1" = Str.strip " return 1".
Proof.
  apply (build_instruction_injective "Python" "python"
           "return 1" " return 1"); reflexivity.
Defined.

Lemma loader_skips_white_lines_witness :
  nonblank ("   " +:+ Stub.nl) = false.
Proof.
  apply (proj2 (loader_skips_white_lines ("   " +:+ Stub.nl))).
  reflexivity.
Defined.

Lemma readlines_partition_witness :
  String.concat "" (readlines ("a" +:+ Stub.nl +:+ Stub.nl +:+ "b"))
  = "a" +:+ Stub.nl +:+ Stub.nl +:+ "b"
  /\ Forall (fun l => l <> EmptyString)
            (readlines ("a" +:+ Stub.nl +:+ Stub.nl +:+ "b")).
Proof.
  apply (readlines_partition ("a" +:+ Stub.nl +:+ Stub.nl +:+ "b")).
  reflexivity.
Defined.

Lemma processed_copy_keeps_name_witness :
  Path.basename (Path.join "tmp/" "out.jsonl") = "out.jsonl".
Proof.
  apply (proj1 (processed_copy_keeps_name Stub.args0) "tmp/" "out.jsonl").
  reflexivity.
Defined.

Lemma instruction_of_cases_witness :
  instruction_of "python" Stub.problem0
  = Ok (instruction_head
        +:+ fenced (Str.lower "Python")
                   (Str.strip ("def add(a, b):" +:+ Stub.nl))).
Proof.
  apply (proj2 (proj1 (instruction_of_cases "python" Stub.problem0) _)).
  exists [("full_name", JStr "Python")], "Python",
         [("task_id", JStr "HumanEval/0");
          ("prompt", JStr ("def add(a, b):" +:+ Stub.nl))],
         ("def add(a, b):" +:+ Stub.nl).
  repeat split; reflexivity.
Defined.

Lemma collect_loop_bounds_witness :
  exists e,
    res_mapM (collect [] "python")
             (enumerate [ {| outputs := [ {| text := Stub.completion |} ] |} ])
    = Err e.
Proof.
  apply (proj2 (collect_loop_bounds [] "python"
                  [ {| outputs := [ {| text := Stub.completion |} ] |} ])).
  cbn. lia.
Defined.

Lemma saved_examples_load_back_witness :
  parse_lines (jsonl Stub.records) = Ok Stub.records
  /\ fst Stub.reloaded = Ok Stub.records.
Proof.
  apply (saved_examples_load_back "outputs/x.jsonl" Stub.records
           Stub.world0 (snd Stub.saved) (fst Stub.reloaded)
           (snd Stub.reloaded)).
  - repeat constructor; by vm_compute.
  - by vm_compute.
  - by vm_compute.
Defined.



Lemma generate_main_without_problems_witness :
  dict_get (language Stub.args_rust) languge_settings = None
  /\ files (snd Stub.without_problems) !! realpath (output_path Stub.args_rust)
     = Some EmptyString
  /\ exists tokenizer,
       from_pretrained (model_path Stub.args_rust) = Ok tokenizer
       /\ EGenerate [] (sampling_params_of tokenizer)
          ∈ trace (snd Stub.without_problems).
Proof.
  split; [reflexivity|].
  apply (generate_main_without_problems Stub.args_rust Stub.world_blank
           (snd Stub.without_problems) (Stub.nl +:+ "  " +:+ Stub.nl));
    by vm_compute.
Defined.

Lemma evaluation_only_processes_written_witness :
  exists processed,
    Forall2 (fun ex rec =>
               extract_generation_code ex (language Stub.args0) = Ok rec)
            Stub.records processed
    /\ files (snd Stub.reevaluated) !! realpath (processed_path_of Stub.args0)
       = Some (jsonl processed).
Proof.
  apply (evaluation_only_processes_written Stub.args0 (snd Stub.generated)).
  - by vm_compute.
  - repeat constructor; by vm_compute.
  - by vm_compute.
Defined.

Lemma generate_main_missing_problem_file_witness :
  exists w',
    generate_main Stub.args0 Stub.world_bare
    = (Err (FileNotFoundError (problem_file_of (language Stub.args0))), w')
    /\ trace w'
       = trace Stub.world_bare
         ++ [EEnter "generate_main"; EMakedirs (temp_dir Stub.args0);
             EPrint ("model " +:+ model_path Stub.args0);
             ETokenizerLoad (model_path Stub.args0);
             EPrint ("load tokenizer " +:+ tok_class Stub.tokenizer
                     +:+ " from " +:+ model_path Stub.args0 +:+ " over.");
             ELLMInit (llm_config Stub.args0);
             EOpenRead (problem_file_of (language Stub.args0))]
    /\ files w' = files Stub.world_bare /\ dirs w' = dirs Stub.world_bare.
Proof.
  apply (generate_main_missing_problem_file Stub.args0 Stub.world_bare
           Stub.tokenizer Stub.llm); done.
Defined.

Lemma generate_main_unknown_language_witness :
  exists w',
    generate_main Stub.args_rust Stub.world_rust
    = (Err (KeyError (language Stub.args_rust)), w')
    /\ trace w'
       = trace Stub.world_rust
         ++ [EEnter "generate_main"; EMakedirs (temp_dir Stub.args_rust);
             EPrint ("model " +:+ model_path Stub.args_rust);
             ETokenizerLoad (model_path Stub.args_rust);
             EPrint ("load tokenizer " +:+ tok_class Stub.tokenizer
                     +:+ " from " +:+ model_path Stub.args_rust +:+ " over.");
             ELLMInit (llm_config Stub.args_rust);
             EOpenRead (problem_file_of (language Stub.args_rust));
             EPrint ("Read " +:+ pretty 1 +:+ " examples for evaluation over.")]
    /\ files w' = files Stub.world_rust /\ dirs w' = dirs Stub.world_rust.
Proof.
  apply (generate_main_unknown_language Stub.args_rust Stub.world_rust
           Stub.tokenizer Stub.llm ("todo HumanEval/0" +:+ Stub.nl)
           Stub.problem0 []); try done; by vm_compute.
Defined.

Lemma evaluation_only_output_is_directory_witness :
  exists w',
    evaluation_only Stub.args0 Stub.world_dir
    = (Err (IsADirectoryError (output_path Stub.args0)), w')
    /\ trace w'
       = trace Stub.world_dir
         ++ [EEnter "evaluation_only";
             EExists (output_path Stub.args0) true;
             EMakedirs (temp_dir Stub.args0);
             EOpenRead (output_path Stub.args0)]
    /\ files w' = files Stub.world_dir /\ dirs w' = dirs Stub.world_dir.
Proof.
  apply (evaluation_only_output_is_directory Stub.args0 Stub.world_dir);
    try done; by vm_compute.
Defined.


Lemma setitem_keeps_fields_witness :
  exists d d',
    Stub.problem0 = JObj d /\ Stub.with_output Stub.problem0 = JObj d'
    /\ map fst d'
       = (if bool_decide ("output" ∈ map fst d)
          then map fst d else map fst d ++ ["output"])
    /\ dict_get "output" d' = Some (JStr Stub.completion)
    /\ (forall k', k' <> "output" -> dict_get k' d' = dict_get k' d)
    /\ (NoDup (map fst d) -> NoDup (map fst d')).
Proof.
  apply (setitem_keeps_fields Stub.problem0 "output" (JStr Stub.completion)).
  reflexivity.
Defined.
